(** * YAM: window manager, localization loader and logging configurator

    A shallow embedding of
      - [src/packages/main/src/classes/window-manager.ts] (class [WindowManager]),
      - [src/packages/main/src/utility/localization.ts],
      - the logging configurator ([init] / [get] over log4js),
    together with the properties of their specification.

    The registry [#WindowsList] is a [gmap string IWindowData]; the host
    runtime (Electron) is a log of the calls made on it plus the table of
    the listeners the manager registered; asynchronous functions are
    functions into a result type whose second case is the rejection. *)

From stdpp Require Import base gmap strings list fin_maps.
From Stdlib Require Import ZArith Lia.

Local Open Scope Z_scope.

(** ** JavaScript values *)

Set Warnings "-register-all".

Module Js.

(** Numbers: only comparisons are performed on them by the code below, so
    a number is [NaN] or an integral value (pixel counts, identifiers). *)
Inductive number : Type :=
| NaN
| Num (z : Z).

(** The values that travel between the processes and through the manager:
    what the structured clone of an IPC message can hold.  A [bigint] is one
    of them; functions and symbols are not. *)
Inductive value : Type :=
| VUndefined
| VNull
| VBool (b : bool)
| VNumber (n : number)
| VBigInt (z : Z)
| VString (s : string)
| VArray (elements : list value)
| VObject (fields : list (string * value)).

Inductive error : Type :=
| TypeError (message : string)
| SyntaxError (message : string)
| Error (message : string)
| SystemError (code : string).

(** The completion of a synchronous call: a value or a thrown error.  For
    an [async] function [Throw] is the rejection of the returned promise. *)
Inductive completion (A : Type) : Type :=
| Normal (a : A)
| Throw (e : error).
Arguments Normal {A} a.
Arguments Throw {A} e.

(** Sequencing: a throw ends the computation; for an [async] function,
    [await] passes a rejection on. *)
#[global] Instance completion_ret : MRet completion := λ A a, Normal a.
#[global] Instance completion_bind : MBind completion :=
  λ A B f c, match c with Normal a => f a | Throw e => Throw e end.

(** [ToBoolean]: the test of [if (x)], [x ? a : b] and [!!x]. *)
Definition ToBoolean (v : value) : bool :=
  match v with
  | VUndefined | VNull => false
  | VBool b => b
  | VNumber NaN => false
  | VNumber (Num z) => negb (z =? 0)
  | VBigInt z => negb (z =? 0)
  | VString s => negb (String.eqb s "")
  | VArray _ | VObject _ => true
  end.

Definition chars (s : string) : list value :=
  (λ c, VString (String.String c String.EmptyString)) <$> String.list_ascii_of_string s.

(** The spread [...v]: arrays and strings are iterable; spreading anything
    else throws a [TypeError]. *)
Definition spread (v : value) : completion (list value) :=
  match v with
  | VArray l => Normal l
  | VString s => Normal (chars s)
  | _ => Throw (TypeError "value is not iterable")
  end.

(** [let [a, b] = args]: a missing element is [undefined]. *)
Definition element (i : nat) (l : list value) : value :=
  default VUndefined (l !! i).

(** What the language leaves to the engine: the number a string denotes
    and the conversion of an object or array to a number, which goes through
    its [valueOf] and [toString] and throws a [TypeError] when neither gives
    a primitive (an object whose own [toString] is not a function). *)
Class Engine : Type := {
  StringToNumber : string → number;
  ObjectToNumber : value → completion number
}.

Section Numbers.
Context `{Engine}.

(** [ToNumber]: a [bigint] is not converted, the conversion throws. *)
Definition ToNumber (v : value) : completion number :=
  match v with
  | VUndefined => Normal NaN
  | VNull => Normal (Num 0)
  | VBool b => Normal (Num (if b then 1 else 0))
  | VNumber n => Normal n
  | VBigInt _ => Throw (TypeError "Cannot convert a BigInt value to a number")
  | VString s => Normal (StringToNumber s)
  | VArray _ | VObject _ => ObjectToNumber v
  end.

(** [Math.max(a, b)] and [Math.min(a, b)]: the arguments are converted
    with [ToNumber], the first one first; the result is [NaN] as soon as
    one of them is. *)
Definition Math_max (a b : value) : completion number :=
  x ← ToNumber a;
  y ← ToNumber b;
  mret (match x, y with
        | Num x, Num y => Num (Z.max x y)
        | _, _ => NaN
        end).

Definition Math_min (a b : value) : completion number :=
  x ← ToNumber a;
  y ← ToNumber b;
  mret (match x, y with
        | Num x, Num y => Num (Z.min x y)
        | _, _ => NaN
        end).

End Numbers.

End Js.

Import Js.

(** ** The host runtime (Electron) as the manager sees it *)

Module Electron.

(** A [BrowserWindow] handle; the host gives every window its own [id]. *)
Record BrowserWindow : Type := { id : Z }.

Record WebPreferences : Type := {
  nodeIntegration : bool;
  contextIsolation : bool;
  allowRunningInsecureContent : bool;
  webSecurity : bool;
  preload : string
}.

(** The object handed to [new BrowserWindow(...)]. *)
Record BrowserWindowConstructorOptions : Type := {
  width : Z;
  height : Z;
  minWidth : option Z;
  minHeight : option Z;
  maxWidth : option Z;
  maxHeight : option Z;
  useContentSize : bool;
  icon : string;
  backgroundColor : string;
  frame : bool;
  parent : option BrowserWindow;
  modal : bool;
  show : bool;
  webPreferences : WebPreferences
}.

(** An event source: the window itself ([w.on]) or its content
    ([w.webContents.on]). *)
Inductive Emitter : Type :=
| Window (id : Z)
| WebContents (id : Z).

(** What the host reports; [event_name] is the string the listeners are
    registered under. *)
Inductive Event : Type :=
| ready_to_show
| dom_ready
| resized
| ipc_message (channel : string) (args : list value)
| closing.

Definition event_name (e : Event) : string :=
  match e with
  | ready_to_show => "ready-to-show"
  | dom_ready => "dom-ready"
  | resized => "resize"
  | ipc_message _ _ => "ipc-message"
  | closing => "close"
  end.

End Electron.

Abbreviation BrowserWindow := Electron.BrowserWindow.

#[global] Instance BrowserWindow_eq_dec : EqDecision BrowserWindow.
Proof. solve_decision. Defined.

#[global] Instance Emitter_eq_dec : EqDecision Electron.Emitter.
Proof. solve_decision. Defined.

(** The closure a caller passes as [onclose]; only its identity matters, its
    invocations are logged. *)
Definition Callback : Type := nat.

(** What a method or a listener does to the outside, in the order it does
    it: calls on the host, calls of [onclose], calls of a promise's
    [resolve]. *)
Module Effect.
Inductive t : Type :=
| new_BrowserWindow (w : BrowserWindow) (o : Electron.BrowserWindowConstructorOptions)
| setMenuBarVisibility (w : BrowserWindow) (visible : bool)
| show (w : BrowserWindow)
| send (w : BrowserWindow) (channel : string) (payload : value)
| getSize (w : BrowserWindow)
| setSize (w : BrowserWindow) (width height : value)
| center (w : BrowserWindow)
| close (w : BrowserWindow)
| onclose (f : Callback) (args : list value)
| resolve (promise : nat) (v : value).
End Effect.

(** ** [common/interfaces]: [IWindowOptions] and [IWindowData] *)

Module Size.
Record t : Type := { width : Z; height : Z }.
End Size.

Module IWindowOptions.
Record t : Type := {
  name : string;
  size : Size.t;
  minSize : option Size.t;
  maxSize : option Size.t;
  hasFrame : option bool;
  parent : option BrowserWindow;
  args : option value;
  onclose : option Callback
}.
End IWindowOptions.

Record IWindowData : Type := {
  window : BrowserWindow;
  options : IWindowOptions.t
}.

(** [common/shared], the error handler of [utility/error-handling] and the
    host's answers: the parts of the environment the manager reads.
    [ehandler e] is what a method decorated with [@CatchAll(ehandler)] gives
    back to its caller when its body threw [e]; [window_size] is what
    [getSize()] answers after the effects so far. *)
Class Shared : Type := {
  isDev : bool;
  store_has : string → bool;
  APP_ICON : string;
  PRELOAD_FILE : string;
  Colors_BASE : string;
  window_size : list Effect.t → BrowserWindow → value;
  ehandler : error → completion value
}.

(** What the caller of a decorated method receives: the value the body
    returned, or the value the decorator produced from the handler. *)
Inductive caught (A : Type) : Type :=
| Returned (a : A)
| Handled (v : value).
Arguments Returned {A} a.
Arguments Handled {A} v.

(** [@CatchAll(ehandler)] around a synchronous body. *)
Definition CatchAll `{Shared} {A : Type} (body : completion A) : completion (caught A) :=
  match body with
  | Normal a => Normal (Returned a)
  | Throw e =>
      match ehandler e with
      | Normal v => Normal (Handled v)
      | Throw e' => Throw e'
      end
  end.

(** ** [class WindowManager] *)

Module WindowManager.

(** The promise made by [createClosePromise] together with the local
    variable [closeWithIPC] its two listeners share. *)
Inductive PromiseState : Type :=
| Pending
| Fulfilled (v : value).

Record ClosePromise : Type := {
  closeWithIPC : bool;
  state : PromiseState
}.

(** The arrow functions the manager registers, each with the variables it
    captured. *)
Inductive Listener : Type :=
| on_ready_to_show (w : BrowserWindow)
| on_dom_ready (w : BrowserWindow) (options : IWindowOptions.t)
| on_resize (w : BrowserWindow)
| on_ipc_message (name : string)
| on_ipc_close (window : BrowserWindow) (onclose : option Callback) (promise : nat)
| on_close (onclose : option Callback) (promise : nat).

Record Registration : Type := {
  emitter : Electron.Emitter;
  event : string;
  once : bool;
  listener : Listener
}.

(** The manager and the part of the host it has touched: the registry
    [#WindowsList], the id of the next window, the registered listeners in
    registration order, the promises made, and the effects so far.

    The registry is read as a map from window names to records: a name no
    window was stored under reads as [undefined].  The property names every
    object inherits ([toString], [__proto__], ...) are not window names and
    are left out. *)
Record t : Type := {
  WindowsList : gmap string IWindowData;
  nextId : Z;
  listeners : list Registration;
  promises : list ClosePromise;
  log : list Effect.t
}.

Definition empty : t :=
  {| WindowsList := ∅; nextId := 1; listeners := []; promises := []; log := [] |}.

Definition set_WindowsList (f : gmap string IWindowData → gmap string IWindowData) (m : t) : t :=
  {| WindowsList := f (WindowsList m); nextId := nextId m; listeners := listeners m;
     promises := promises m; log := log m |}.

Definition set_nextId (f : Z → Z) (m : t) : t :=
  {| WindowsList := WindowsList m; nextId := f (nextId m); listeners := listeners m;
     promises := promises m; log := log m |}.

Definition set_listeners (f : list Registration → list Registration) (m : t) : t :=
  {| WindowsList := WindowsList m; nextId := nextId m; listeners := f (listeners m);
     promises := promises m; log := log m |}.

Definition set_promises (f : list ClosePromise → list ClosePromise) (m : t) : t :=
  {| WindowsList := WindowsList m; nextId := nextId m; listeners := listeners m;
     promises := f (promises m); log := log m |}.

Definition perform (es : list Effect.t) (m : t) : t :=
  {| WindowsList := WindowsList m; nextId := nextId m; listeners := listeners m;
     promises := promises m; log := log m ++ es |}.

(** [emitter.on(event, listener)] and [emitter.once(event, listener)]. *)
Definition on (e : Electron.Emitter) (ev : string) (l : Listener) : t → t :=
  set_listeners (λ ls, ls ++ [{| emitter := e; event := ev; once := false; listener := l |}]).

Definition once_ (e : Electron.Emitter) (ev : string) (l : Listener) : t → t :=
  set_listeners (λ ls, ls ++ [{| emitter := e; event := ev; once := true; listener := l |}]).

(** [resolve(v)] of promise [p]: settles it if it is still pending, and is
    without effect on a settled promise. *)
Definition settle (v : value) (c : ClosePromise) : ClosePromise :=
  {| closeWithIPC := closeWithIPC c;
     state := match state c with Pending => Fulfilled v | Fulfilled u => Fulfilled u end |}.

Definition resolve (p : nat) (v : value) (m : t) : t :=
  perform [Effect.resolve p v] (set_promises (alter (settle v) p) m).

Definition set_closeWithIPC (p : nat) (b : bool) : t → t :=
  set_promises (alter (λ c, {| closeWithIPC := b; state := state c |}) p).

Section Methods.
Context `{Engine} `{Shared}.

(** *** [get] *)

(** [w.id === arg] for a number [arg]. *)
Definition id_is (arg : number) (w : BrowserWindow) : bool :=
  match arg with
  | Num z => Electron.id w =? z
  | NaN => false
  end.

(** [Object.values(this.#WindowsList)]; the windows of a registry have
    pairwise different ids, so the order of enumeration does not show in
    what [find] returns. *)
Definition Object_values (l : gmap string IWindowData) : list IWindowData :=
  (map_to_list l).*2.

(** The body of [get]; [None] is [null].  Reading [.window] of a registry
    slot that holds nothing is reading a property of [undefined]. *)
Definition get_body (m : t) (arg : value) : completion (option BrowserWindow) :=
  match arg with
  | VString name =>
      match WindowsList m !! name with
      | Some wd => Normal (Some (window wd))
      | None => Throw (TypeError "Cannot read properties of undefined (reading 'window')")
      end
  | VNumber n =>
      let windows := window <$> Object_values (WindowsList m) in
      Normal (find (id_is n) windows)
  | _ => Normal None
  end.

Definition get (m : t) (arg : value) : completion (caught (option BrowserWindow)) :=
  CatchAll (get_body m arg).

(** *** [getName] *)

(** [Object.entries(this.#WindowsList)]. *)
Definition Object_entries (l : gmap string IWindowData) : list (string * IWindowData) :=
  map_to_list l.

(** The callback of [.map]: the name when the ids agree, [undefined]
    ([None]) otherwise. *)
Definition name_if_same (w : BrowserWindow) (entry : string * IWindowData) : option string :=
  if Electron.id (window entry.2) =? Electron.id w then Some entry.1 else None.

(** The callback of [.filter]: [!!e]. *)
Definition truthy (e : option string) : bool :=
  match e with
  | Some name => ToBoolean (VString name)
  | None => false
  end.

(** The body of [getName]; [.shift()] takes the first element left, and
    [name ?? null] makes [null] ([None]) of the [undefined] of an empty
    array. *)
Definition getName_body (m : t) (w : BrowserWindow) : completion (option string) :=
  let name :=
    head (filter (λ e, truthy e = true)
                 (name_if_same w <$> Object_entries (WindowsList m))) in
  Normal (default None name).

Definition getName (m : t) (w : BrowserWindow) : completion (caught (option string)) :=
  CatchAll (getName_body m w).

(** *** [windowIPCHandler]: the IPC command router *)

(** The closures of the router close over [w], the registry slot the
    listener read: what calling one does to the host and how the call
    completes.  Without a record their first step reads a property of
    [undefined]. *)
Definition with_record (w : option IWindowData)
    (f : IWindowData → list Effect.t * completion unit) : list Effect.t * completion unit :=
  match w with
  | Some w => f w
  | None => ([], Throw (TypeError "Cannot read properties of undefined"))
  end.

(** The closure [resize]: destructure, clamp, apply.  [Math.max] and
    [Math.min] throw on a value that has no conversion to a number; the
    call of [setSize] is then not reached. *)
Definition resize (args : list value) (w : IWindowData) : list Effect.t * completion unit :=
  let width := element 0 args in
  let height := element 1 args in
  let atLeast : completion (value * value) :=
    match IWindowOptions.minSize (options w) with
    | Some min =>
        width ← Math_max width (VNumber (Num (Size.width min)));
        height ← Math_max height (VNumber (Num (Size.height min)));
        mret (VNumber width, VNumber height)
    | None => mret (width, height)
    end in
  let atMost : completion (value * value) :=
    '(width, height) ← atLeast;
    match IWindowOptions.maxSize (options w) with
    | Some max =>
        width ← Math_min width (VNumber (Num (Size.width max)));
        height ← Math_min height (VNumber (Num (Size.height max)));
        mret (VNumber width, VNumber height)
    | None => mret (width, height)
    end in
  match atMost with
  | Normal (width, height) => ([Effect.setSize (window w) width height], Normal ())
  | Throw e => ([], Throw e)
  end.

(** The closure [size]: read the size and send it back; [before] is what
    was done before. *)
Definition size (before : list Effect.t) (w : IWindowData) : list Effect.t * completion unit :=
  let size := window_size (before ++ [Effect.getSize (window w)]) (window w) in
  ([Effect.getSize (window w); Effect.send (window w) "window-size" size], Normal ()).

Definition center (w : IWindowData) : list Effect.t * completion unit :=
  ([Effect.center (window w)], Normal ()).

(** The function map: a key and what calling its closure does. *)
Definition map (before : list Effect.t) (w : option IWindowData) (args : list value)
    : list (string * (list Effect.t * completion unit)) :=
  [("window-resize", with_record w (resize args));
   ("window-size", with_record w (size before));
   ("window-center", with_record w center)].

Definition Object_keys {A : Type} (o : list (string * A)) : list string := o.*1.

Definition includes (l : list string) (s : string) : bool :=
  existsb (String.eqb s) l.

Definition property {A : Type} (o : list (string * A)) (key : string) : option A :=
  snd <$> find (λ kv, String.eqb kv.1 key) o.

(** The body of [windowIPCHandler(w, channel, args)]: the effects it has
    and how it completes. *)
Definition windowIPCHandler_body (before : list Effect.t) (w : option IWindowData)
    (channel : string) (args : list value) : list Effect.t * completion unit :=
  let map := map before w args in
  let validChannel := includes (Object_keys map) channel in
  if validChannel then
    default ([], Throw (TypeError "map[channel] is not a function")) (property map channel)
  else ([], Normal ()).

Definition windowIPCHandler (before : list Effect.t) (w : option IWindowData)
    (channel : string) (args : list value) : list Effect.t * completion (caught unit) :=
  let '(effects, c) := windowIPCHandler_body before w channel args in
  (effects, CatchAll c).

(** *** [createClosePromise] *)

(** The executor of [new Promise(...)] runs at once: it makes the local
    [closeWithIPC] and registers the two listeners.  The body has no
    throwing step, so the decorated method returns what the body returns:
    the promise, here its index in [promises]. *)
Definition createClosePromise (m : t) (window : BrowserWindow) (onclose : option Callback)
    : t * nat :=
  let promise := length (promises m) in
  let m := set_promises (λ ps, ps ++ [{| closeWithIPC := false; state := Pending |}]) m in
  let m := on (Electron.WebContents (Electron.id window)) "ipc-message"
              (on_ipc_close window onclose promise) m in
  let m := on (Electron.Window (Electron.id window)) "close"
              (on_close onclose promise) m in
  (m, promise).

(** *** [createBaseWindow] *)

Definition constructor_options (options : IWindowOptions.t)
    : Electron.BrowserWindowConstructorOptions :=
  {| Electron.width := Size.width (IWindowOptions.size options);
     Electron.height := Size.height (IWindowOptions.size options);
     Electron.minWidth := Size.width <$> IWindowOptions.minSize options;
     Electron.minHeight := Size.height <$> IWindowOptions.minSize options;
     Electron.maxWidth := Size.width <$> IWindowOptions.maxSize options;
     Electron.maxHeight := Size.height <$> IWindowOptions.maxSize options;
     Electron.useContentSize := true;
     Electron.icon := APP_ICON;
     Electron.backgroundColor := Colors_BASE;
     Electron.frame := default true (IWindowOptions.hasFrame options);
     Electron.parent := IWindowOptions.parent options;
     Electron.modal := bool_decide (is_Some (IWindowOptions.parent options));
     Electron.show := false;
     Electron.webPreferences :=
       {| Electron.nodeIntegration := false;
          Electron.contextIsolation := true;
          Electron.allowRunningInsecureContent := false;
          Electron.webSecurity := true;
          Electron.preload := PRELOAD_FILE |} |}.

(** The body has no throwing step, so the decorated method returns what the
    body returns: the promise ([Some]) or [null] ([None]). *)
Definition createBaseWindow (m : t) (options : IWindowOptions.t) : t * option nat :=
  (* Create the browser window *)
  let bw := {| Electron.id := nextId m |} in
  let m := perform [Effect.new_BrowserWindow bw (constructor_options options)]
             (set_nextId Z.succ m) in
  (* Save the window in the list and reload *)
  let m := set_WindowsList
             <[IWindowOptions.name options := {| window := bw; options := options |}]> m in
  let w := bw in
  (* Disable default menu *)
  let enableMenuBar := store_has ("menubar-" +:+ IWindowOptions.name options) in
  let m := perform [Effect.setMenuBarVisibility w (isDev || enableMenuBar)] m in
  (* Window WebContent messages *)
  let m := on (Electron.Window (Electron.id w)) "ready-to-show" (on_ready_to_show w) m in
  let m := once_ (Electron.WebContents (Electron.id w)) "dom-ready" (on_dom_ready w options) m in
  let m := on (Electron.Window (Electron.id w)) "resize" (on_resize w) m in
  let m := on (Electron.WebContents (Electron.id w)) "ipc-message"
              (on_ipc_message (IWindowOptions.name options)) m in
  match IWindowOptions.onclose options with
  | Some f => let '(m, promise) := createClosePromise m w (Some f) in (m, Some promise)
  | None => (m, None)
  end.

(** *** The listeners *)

(** How a listener leaves the manager, and the error it threw if it did. *)
Definition thrown (c : completion (caught unit)) : option error :=
  match c with
  | Normal _ => None
  | Throw e => Some e
  end.

(** [(_e, channel, ...args) => this.windowIPCHandler(this.#WindowsList[options.name], channel, args)] *)
Definition run_on_ipc_message (name : string) (channel : string) (args : list value)
    (m : t) : t * option error :=
  let '(effects, c) := windowIPCHandler (log m) (WindowsList m !! name) channel args in
  (perform effects m, thrown c).

(** [(e, channel, args) => { if (channel === "window-close") ... }]: [args]
    is the first value sent on the channel. *)
Definition run_on_ipc_close (window : BrowserWindow) (onclose : option Callback)
    (promise : nat) (channel : string) (args : value) (m : t) : t * option error :=
  if String.eqb channel "window-close" then
    let called :=
      match onclose with
      | Some f =>
          if ToBoolean args then
            match spread args with
            | Normal l => Normal (perform [Effect.onclose f l] m)
            | Throw e => Throw e
            end
          else Normal (perform [Effect.onclose f []] m)
      | None => Normal m
      end in
    match called with
    | Throw e => (m, Some e)
    | Normal m =>
        (* Closes the window explicitly *)
        let m := set_closeWithIPC promise true m in
        let m := perform [Effect.close window] m in
        (* Resolve the promise: [[...args] ?? null], and an array is never
           nullish *)
        match spread args with
        | Normal l => (resolve promise (VArray l) m, None)
        | Throw e => (m, Some e)
        end
    end
  else (m, None).

(** [() => { if (onclose && !closeWithIPC) { onclose(null); resolve(null); } }] *)
Definition run_on_close (onclose : option Callback) (promise : nat) (m : t)
    : t * option error :=
  let closeWithIPC := default false (closeWithIPC <$> promises m !! promise) in
  match onclose with
  | Some f =>
      if negb closeWithIPC then
        let m := perform [Effect.onclose f [VNull]] m in
        (resolve promise VNull m, None)
      else (m, None)
  | None => (m, None)
  end.

Definition run_listener (l : Listener) (ev : Electron.Event) (m : t) : t * option error :=
  match l, ev with
  | on_ready_to_show w, _ => (perform [Effect.show w] m, None)
  | on_dom_ready w options, _ =>
      (* if (options.args): an absent [args] is [undefined] *)
      match IWindowOptions.args options with
      | Some a =>
          if ToBoolean a then (perform [Effect.send w "window-arguments" a] m, None)
          else (m, None)
      | None => (m, None)
      end
  | on_resize w, _ =>
      let size := window_size (log m ++ [Effect.getSize w]) w in
      (perform [Effect.getSize w; Effect.send w "window-resized" size] m, None)
  | on_ipc_message name, Electron.ipc_message channel args =>
      run_on_ipc_message name channel args m
  | on_ipc_close window onclose promise, Electron.ipc_message channel args =>
      run_on_ipc_close window onclose promise channel (element 0 args) m
  | on_close onclose promise, _ => run_on_close onclose promise m
  | _, _ => (m, None)
  end.

(** *** The host emitting an event *)

Definition listens (e : Electron.Emitter) (ev : Electron.Event) (r : Registration) : Prop :=
  emitter r = e ∧ event r = Electron.event_name ev.

(** A [once] listener is taken out just before it runs. *)
Fixpoint remove_once (e : Electron.Emitter) (ev : Electron.Event) (ls : list Registration)
    : list Registration :=
  match ls with
  | [] => []
  | r :: ls =>
      if decide (listens e ev r ∧ once r = true) then ls else r :: remove_once e ev ls
  end.

(** The listeners run in registration order; a listener that throws ends
    the emission, the ones after it do not run. *)
Fixpoint run_listeners (e : Electron.Emitter) (ev : Electron.Event)
    (rs : list Registration) (m : t) : t * option error :=
  match rs with
  | [] => (m, None)
  | r :: rs =>
      let m := if once r then set_listeners (remove_once e ev) m else m in
      match run_listener (listener r) ev m with
      | (m, None) => run_listeners e ev rs m
      | (m, Some err) => (m, Some err)
      end
  end.

Definition emit (e : Electron.Emitter) (ev : Electron.Event) (m : t) : t * option error :=
  run_listeners e ev (filter (listens e ev) (listeners m)) m.

(** *** The states the manager can be in *)

Inductive reachable : t → Prop :=
| reachable_empty : reachable empty
| reachable_createBaseWindow (m : t) (options : IWindowOptions.t) :
    reachable m → reachable (createBaseWindow m options).1
| reachable_emit (m : t) (e : Electron.Emitter) (ev : Electron.Event) :
    reachable m → reachable (emit e ev m).1.

End Methods.

End WindowManager.

(** ** [utility/localization.ts] *)

Module Localization.

Record Dirent : Type := {
  name : string;
  isFile : bool
}.

(** What the loader asks of Node: [path], [fs/promises], [JSON.parse], and
    the order in which the promises handed to [Promise.all] settle (indices
    into the array, earliest first), which the event loop decides. *)
Class Node : Type := {
  path_resolve : string → string;
  path_join : string → string → string;
  path_basename : string → string → string;
  readdir : string → completion (list Dirent);
  readFile : string → completion string;
  JSON_parse : string → completion value;
  settling : list nat
}.

(** The translation engine (i18next) as the loader drives it. *)
Record InitOptions : Type := {
  resources : gmap string value;
  fallbackLng : string
}.

Record i18next : Type := {
  initialized : option InitOptions;
  language : option string
}.

Definition init (o : InitOptions) (i : i18next) : i18next :=
  {| initialized := Some o; language := language i |}.

Definition i18next_changeLanguage (lang : string) (i : i18next) : i18next :=
  {| initialized := initialized i; language := Some lang |}.

(** [s.endsWith(suffix)] *)
Definition endsWith (s suffix : string) : bool :=
  (String.length suffix <=? String.length s)%nat
  && String.eqb
       (String.substring (String.length s - String.length suffix) (String.length suffix) s)
       suffix.

(** [Promise.all(ps)]: rejected with the reason of the promise that is
    rejected first, and fulfilled with all the values when none is
    rejected; [order] is the order of settlement, and a promise it does not
    mention settles after those it mentions. *)
Definition rejection {A : Type} (p : option (completion A)) : option error :=
  match p with
  | Some (Throw e) => Some e
  | _ => None
  end.

Definition fulfilment {A : Type} (p : completion A) : option A :=
  match p with
  | Normal a => Some a
  | Throw _ => None
  end.

Fixpoint first_rejection {A : Type} (ps : list (completion A)) (order : list nat)
    : option error :=
  match order with
  | [] => None
  | i :: order =>
      match rejection (ps !! i) with
      | Some e => Some e
      | None => first_rejection ps order
      end
  end.

Definition Promise_all {A : Type} (order : list nat) (ps : list (completion A))
    : completion (list A) :=
  match first_rejection ps (order ++ seq 0 (length ps)) with
  | Some e => Throw e
  | None => Normal (omap fulfilment ps)
  end.

Section Loader.
Context `{Shared} `{Node}.

(** The [async (p) => ...] mapped over the paths. *)
Definition read_translation (p : string) : completion (string * value) :=
  json ← readFile p;
  data ← JSON_parse json;
  let languageISO := path_basename p ".json" in
  mret (languageISO, data).

Definition getTranslationResourcesFromDir (dirname : string)
    : completion (gmap string value) :=
  (* Resolve the path to the resources *)
  let dir := path_resolve dirname in
  (* Read all the files in the dir *)
  dirents ← readdir (path_resolve dir);
  let files :=
    name <$> filter (λ dirent, isFile dirent && endsWith (name dirent) ".json" = true) dirents in
  (* Parse all the paths *)
  let paths := path_join dir <$> files in
  (* Read translations *)
  let promises := read_translation <$> paths in
  parsed ← Promise_all settling promises;
  (* Add translations to dictionary *)
  mret (foldl (λ resources data, <[data.1 := data.2]> resources) ∅ parsed).

Definition changeLanguage (lang : string) (i : i18next) : i18next * completion unit :=
  (i18next_changeLanguage lang i, Normal ()).

(** [initLocalization(resourcesPath, language?)]: the engine afterwards and
    the completion of the returned promise. *)
Definition initLocalization (resourcesPath : string) (language : option string)
    (i : i18next) : i18next * completion unit :=
  (* Obtain the translation files *)
  match getTranslationResourcesFromDir resourcesPath with
  | Throw e => (i, Throw e)
  | Normal res =>
      (* Initialize class *)
      let i := init {| resources := res; fallbackLng := if isDev then "dev" else "en" |} i in
      (* If defined, change language *)
      match language with
      | Some lang => if ToBoolean (VString lang) then changeLanguage lang i else (i, Normal ())
      | None => (i, Normal ())
      end
  end.

End Loader.

End Localization.

(** ** The logging configurator *)

Module Loggers.

Inductive TLoggerCategory : Type := main | renderer | f95.

Definition category_name (c : TLoggerCategory) : string :=
  match c with
  | main => "main"
  | renderer => "renderer"
  | f95 => "f95"
  end.

Record Layout : Type := {
  layout_type : string;
  pattern : string
}.

Record Appender : Type := {
  type : string;
  filename : string;
  layout : Layout;
  keepFileExt : bool;
  maxLogSize : Z;
  backups : Z;
  compress : bool
}.

Record Category : Type := {
  appenders : list string;
  level : string
}.

Record Configuration : Type := {
  config_appenders : list (string * Appender);
  categories : list (string * Category)
}.

(** [shared.paths.LogPath] *)
Class LogPath : Type := {
  DEFAULT : string;
  MAIN : string;
  RENDERER : string;
  F95API : string
}.

(** The module's state: its global [initialized] and the configuration
    log4js was given. *)
Record t : Type := {
  initialized : bool;
  configured : option Configuration
}.

(** The state when the module has been loaded: [let initialized = false]. *)
Definition loaded : t := {| initialized := false; configured := None |}.

(** What [getLogger] of log4js hands out. *)
Record Logger : Type := {
  category : string;
  configuration : option Configuration
}.

Definition LAYOUT : Layout :=
  {| layout_type := "pattern"; pattern := "[%d{yyyy/MM/dd-hh.mm.ss}] (%p - %c) %m" |}.

Definition createCommonAppender (filename : string) : Appender :=
  {| type := "file";
     filename := filename;
     layout := LAYOUT;
     keepFileExt := true;
     maxLogSize := 10485760;
     backups := 3;
     compress := true |}.

Section Configurator.
Context `{Shared} `{LogPath}.

Definition configure (c : Configuration) (s : t) : t :=
  {| initialized := initialized s; configured := Some c |}.

Definition getLogger (s : t) (category : string) : Logger :=
  {| category := category; configuration := configured s |}.

Definition init (s : t) : t :=
  (* Create the appenders *)
  let DEFAULT_APPENDER := createCommonAppender DEFAULT in
  let MAIN_APPENDER := createCommonAppender MAIN in
  let RENDERER_APPENDER := createCommonAppender RENDERER in
  let F95_APPENDER := createCommonAppender F95API in
  (* Set the level for the appenders *)
  let level := if isDev then "debug" else "warn" in
  (* Create the configuration object *)
  let configuration :=
    {| config_appenders :=
         [("default", DEFAULT_APPENDER); ("main", MAIN_APPENDER);
          ("renderer", RENDERER_APPENDER); ("f95", F95_APPENDER)];
       categories :=
         [("default", {| appenders := ["default"]; level := "debug" |});
          ("main", {| appenders := ["main"]; level := level |});
          ("renderer", {| appenders := ["renderer"]; level := level |});
          ("f95", {| appenders := ["f95"]; level := level |})] |} in
  (* Load the configuration *)
  let s := configure configuration s in
  {| initialized := true; configured := configured s |}.

Definition get (s : t) (category : TLoggerCategory) : completion Logger :=
  if negb (initialized s) then Throw (Error "Loggers not initiailized")
  else Normal (getLogger s (category_name category)).

(** What the process does with the module, and the state after a history. *)
Inductive Call : Type :=
| call_init
| call_get (category : TLoggerCategory).

Definition step (s : t) (c : Call) : t :=
  match c with
  | call_init => init s
  | call_get _ => s
  end.

Definition run (history : list Call) : t := foldl step loaded history.

End Configurator.

End Loggers.

(** ** The preload script of the login window ([login-preload.js]) *)

Module LoginPreload.

(** Array of valid render-to-main channels. *)
Definition validSendChannels : list string :=
  ["window-close"; "credentials-path"; "translate"].

(** What the bridge does for the content: a call of [ipcRenderer] or a
    warning in the log. *)
Inductive Effect : Type :=
| ipcRenderer_invoke (channel : string) (args : list value)
| ipcRenderer_send (channel : string) (args : list value)
| logger_warn (message : string).

(** The text a template literal makes of a value. *)
Class Text : Type := { ToString : value → string }.

Section Bridge.
Context `{Text}.

Definition unauthorized (channel : string) (data : list value) : string :=
  "Unauthorized IPC message from 'login-preload.js' through " +:+ channel +:+ ": "
  +:+ ToString (VArray data).


(** [send: (channel, ...data) => ...] *)
Definition send (channel : string) (data : list value) : list Effect :=
  if WindowManager.includes validSendChannels channel then
    [ipcRenderer_send channel [VArray data]]
  else [logger_warn (unauthorized channel data)].

End Bridge.


End LoginPreload.

(** ** The script of the message box ([messagebox-renderer.js]) *)

Module Messagebox.

(** What the script reads of an element: [scrollWidth] and [scrollHeight],
    whole numbers of pixels. *)
Record Element : Type := {
  scrollWidth : Z;
  scrollHeight : Z
}.

(** The elements of the page the size functions look up. *)
Record Page : Type := {
  header : Element;
  roundedContainer : Element;
  buttons : list Element;
  checkboxes : list Element
}.

Module Area.
Record t : Type := { width : Z; height : Z }.
End Area.

(** [Math.floor((700 * 90) / 100)] *)
Definition MAX_CONTENT_WIDTH : Z := (700 * 90) / 100.

(** The variables of the loop of [getButtonsAreaSize]. *)
Record Row : Type := {
  width : Z;
  height : Z;
  rowWidth : Z
}.

Definition add_button (r : Row) (button : Element) : Row :=
  let rowWidth := rowWidth r + scrollWidth button in
  (* Set the height for at least one row of buttons *)
  let height := if height r =? 0 then scrollHeight button else height r in
  if MAX_CONTENT_WIDTH <? rowWidth then
    {| width := Z.max rowWidth (width r);
       height := height + scrollHeight button;
       rowWidth := 0 |}
  else {| width := width r; height := height; rowWidth := rowWidth |}.

Definition getButtonsAreaSize (p : Page) : Area.t :=
  let r := foldl add_button {| width := 0; height := 0; rowWidth := 0 |} (buttons p) in
  {| Area.height := height r; Area.width := Z.min (width r) MAX_CONTENT_WIDTH |}.

Definition add_checkbox (a : Area.t) (checkbox : Element) : Area.t :=
  {| Area.width := Z.max (scrollWidth checkbox) (Area.width a);
     Area.height := Area.height a + scrollHeight checkbox |}.

Definition getCheckboxesAreaSize (p : Page) : Area.t :=
  let a := foldl add_checkbox {| Area.width := 0; Area.height := 0 |} (checkboxes p) in
  {| Area.width := Z.min (Area.width a) MAX_CONTENT_WIDTH; Area.height := Area.height a |}.

(** [Math.ceil(a / 9)] for a whole number [a]: the quotient is a whole
    number or at least a ninth away from one, so the rounding of the
    division does not show in the ceiling. *)
Definition ceil_ninth (a : Z) : Z := - ((- a) / 9).

(** [fitContent()]: the arguments of its [window.API.send("window-resize",
    realWidth, height)]. *)
Definition fitContent (p : Page) : string * list value :=
  let headerSize := header p in
  let roundedContainerSize := roundedContainer p in
  let buttonsAreaSize := getButtonsAreaSize p in
  let checkboxesAreaSize := getCheckboxesAreaSize p in
  (* Calculate the final sizes *)
  let PADDING := 10 in
  let partialWidth :=
    Z.max (Z.max (Z.max (scrollWidth headerSize) (scrollWidth roundedContainerSize))
                 (Area.width buttonsAreaSize))
          (Area.width checkboxesAreaSize) in
  let height :=
    scrollHeight headerSize + scrollHeight roundedContainerSize
    + Area.height buttonsAreaSize + Area.height checkboxesAreaSize + 4 * PADDING in
  let realWidth := ceil_ninth (partialWidth * 10) in
  ("window-resize", [VNumber (Num realWidth); VNumber (Num height)]).

End Messagebox.

(** ** Notions of the specification *)

(** What the spec says of one dimension of a resize: raised to the lower
    bound if there is one, then lowered to the upper bound if there is
    one. *)
Definition raised (bound : option Z) (v : Z) : Z :=
  match bound with
  | Some lo => if v <? lo then lo else v
  | None => v
  end.

Definition lowered (bound : option Z) (v : Z) : Z :=
  match bound with
  | Some hi => if hi <? v then hi else v
  | None => v
  end.

Definition clamped (min max : option Z) (v : Z) : Z := lowered max (raised min v).

(** The same of a number that may be [NaN]: [NaN] stays [NaN]. *)
Definition limited (min max : option Z) (n : number) : number :=
  match n with
  | NaN => NaN
  | Num z => Num (clamped min max z)
  end.

(** What one element [v] of a resize payload becomes on its way to
    [setSize]: itself when the record has no bound, and otherwise its
    conversion to a number, clamped; there is none when the conversion
    throws. *)
Definition applied `{Engine} (min max : option Z) (v : value) : completion value :=
  match min, max with
  | None, None => Normal v
  | _, _ => n ← ToNumber v; mret (VNumber (limited min max n))
  end.

(** The window an event source belongs to. *)
Definition emitter_id (e : Electron.Emitter) : Z :=
  match e with
  | Electron.Window i | Electron.WebContents i => i
  end.

(** Every registered listener sits on a window that has been created. *)
Definition wf (m : WindowManager.t) : Prop :=
  Forall (λ r, emitter_id (WindowManager.emitter r) < WindowManager.nextId m)
         (WindowManager.listeners m).

(** The listeners [createBaseWindow] registers for the window [w] it made,
    in the order it registers them; [promise] is the close promise. *)
Definition registered (w : BrowserWindow) (options : IWindowOptions.t) (promise : nat)
    : list WindowManager.Registration :=
  [{| WindowManager.emitter := Electron.Window (Electron.id w);
      WindowManager.event := "ready-to-show"; WindowManager.once := false;
      WindowManager.listener := WindowManager.on_ready_to_show w |};
   {| WindowManager.emitter := Electron.WebContents (Electron.id w);
      WindowManager.event := "dom-ready"; WindowManager.once := true;
      WindowManager.listener := WindowManager.on_dom_ready w options |};
   {| WindowManager.emitter := Electron.Window (Electron.id w);
      WindowManager.event := "resize"; WindowManager.once := false;
      WindowManager.listener := WindowManager.on_resize w |};
   {| WindowManager.emitter := Electron.WebContents (Electron.id w);
      WindowManager.event := "ipc-message"; WindowManager.once := false;
      WindowManager.listener := WindowManager.on_ipc_message (IWindowOptions.name options) |}]
  ++ match IWindowOptions.onclose options with
     | Some f =>
         [{| WindowManager.emitter := Electron.WebContents (Electron.id w);
             WindowManager.event := "ipc-message"; WindowManager.once := false;
             WindowManager.listener := WindowManager.on_ipc_close w (Some f) promise |};
          {| WindowManager.emitter := Electron.Window (Electron.id w);
             WindowManager.event := "close"; WindowManager.once := false;
             WindowManager.listener := WindowManager.on_close (Some f) promise |}]
     | None => []
     end.

(** The resource files of a directory listing: the files named [*.json]. *)
Definition resource_file (d : Localization.Dirent) : Prop :=
  Localization.isFile d && Localization.endsWith (Localization.name d) ".json" = true.

(** The windows of the registry were made by the manager, each under one
    name only. *)
Definition ids_below (m : WindowManager.t) : Prop :=
  ∀ name wd, WindowManager.WindowsList m !! name = Some wd →
    Electron.id (window wd) < WindowManager.nextId m.

Definition ids_distinct (m : WindowManager.t) : Prop :=
  ∀ name1 name2 wd1 wd2,
    WindowManager.WindowsList m !! name1 = Some wd1 →
    WindowManager.WindowsList m !! name2 = Some wd2 →
    Electron.id (window wd1) = Electron.id (window wd2) → name1 = name2.

(** The manager after the host has reported the events [evs], in order. *)
Definition handle `{Engine} `{Shared} (m : WindowManager.t)
    (evs : list (Electron.Emitter * Electron.Event)) : WindowManager.t :=
  foldl (λ m ev, (WindowManager.emit ev.1 ev.2 m).1) m evs.

(** What a promise keeps once it has it: a set flag stays set and a result
    stays the result. *)
Definition kept (c c' : WindowManager.ClosePromise) : Prop :=
  (WindowManager.closeWithIPC c = true → WindowManager.closeWithIPC c' = true)
  ∧ ∀ v, WindowManager.state c = WindowManager.Fulfilled v →
         WindowManager.state c' = WindowManager.Fulfilled v.

Section MoreNotions.
Context `{Engine} `{Shared}.

Import WindowManager.

(** [keeps p c m]: promise [p] of [m] has kept what [c] had. *)
Definition keeps (p : nat) (c : ClosePromise) (m : t) : Prop :=
  ∃ c', promises m !! p = Some c' ∧ kept c c'.

(** The promise a listener closes over. *)
Definition promise_of (l : Listener) : option nat :=
  match l with
  | on_ipc_close _ _ p | on_close _ p => Some p
  | _ => None
  end.

(** No listener on a window picked by [S] closes over promise [p]. *)
Definition silent_for (p : nat) (S : Z → Prop) (m : t) : Prop :=
  ∀ r, r ∈ listeners m → S (emitter_id (emitter r)) → promise_of (listener r) ≠ Some p.

(** Every promise a listener closes over has been made. *)
Definition refs_below (m : t) : Prop :=
  ∀ r p, r ∈ listeners m → promise_of (listener r) = Some p → (p < length (promises m))%nat.

(** The settings that keep the content of a window away from Node and from
    the screen until it is ready. *)
Definition hardened (o : Electron.BrowserWindowConstructorOptions) : Prop :=
  Electron.nodeIntegration (Electron.webPreferences o) = false
  ∧ Electron.contextIsolation (Electron.webPreferences o) = true
  ∧ Electron.webSecurity (Electron.webPreferences o) = true
  ∧ Electron.allowRunningInsecureContent (Electron.webPreferences o) = false
  ∧ Electron.preload (Electron.webPreferences o) = PRELOAD_FILE
  ∧ Electron.show o = false.

Definition opens (x : Effect.t) : Prop :=
  match x with
  | Effect.new_BrowserWindow _ _ => True
  | _ => False
  end.

(** [adds m m']: [m'] has done what [m] had done and then things that open
    no window. *)
Definition adds (m m' : t) : Prop :=
  ∃ es, log m' = log m ++ es ∧ Forall (λ x, ¬ opens x) es.

End MoreNotions.

(** The log file of a category. *)
Definition log_file `{Loggers.LogPath} (c : Loggers.TLoggerCategory) : string :=
  match c with
  | Loggers.main => Loggers.MAIN
  | Loggers.renderer => Loggers.RENDERER
  | Loggers.f95 => Loggers.F95API
  end.


(** Of a list of elements: the first height that is not 0, the sum of the
    widths and the sum of the heights. *)
Definition first_height (bs : list Messagebox.Element) : Z :=
  default 0 (head (filter (λ h, h ≠ 0) (Messagebox.scrollHeight <$> bs))).

Definition total_width (bs : list Messagebox.Element) : Z :=
  foldr Z.add 0 (Messagebox.scrollWidth <$> bs).

Definition total_height (cs : list Messagebox.Element) : Z :=
  foldr Z.add 0 (Messagebox.scrollHeight <$> cs).

(** ** An environment and inputs to run the definitions on *)

(** An engine for which only the empty string denotes a number. *)
Definition example_engine : Engine :=
  {| StringToNumber := λ s, if String.eqb s "" then Num 0 else NaN;
     ObjectToNumber := λ _, Normal NaN |}.

(** A production environment whose error handler logs and gives nothing
    back. *)
Definition example_shared : Shared :=
  {| isDev := false;
     store_has := λ _, false;
     APP_ICON := "icon.png";
     PRELOAD_FILE := "preload.js";
     Colors_BASE := "#262626";
     window_size := λ _ _, VArray [VNumber (Num 1024); VNumber (Num 620)];
     ehandler := λ _, Normal VUndefined |}.

(** The main window, with a close callback. *)
Definition example_options : IWindowOptions.t :=
  {| IWindowOptions.name := "main";
     IWindowOptions.size := {| Size.width := 1024; Size.height := 620 |};
     IWindowOptions.minSize := Some {| Size.width := 1024; Size.height := 620 |};
     IWindowOptions.maxSize := None;
     IWindowOptions.hasFrame := None;
     IWindowOptions.parent := None;
     IWindowOptions.args := None;
     IWindowOptions.onclose := Some 7%nat |}.

(** A resource directory with an English file, an Italian file cut short,
    a file that is no resource and a directory named like one. *)
Definition example_malformed : Localization.Dirent :=
  {| Localization.name := "it.json"; Localization.isFile := true |}.

Definition example_dirents : list Localization.Dirent :=
  [{| Localization.name := "en.json"; Localization.isFile := true |};
   example_malformed;
   {| Localization.name := "README.md"; Localization.isFile := true |};
   {| Localization.name := "old.json"; Localization.isFile := false |}].

Definition example_node : Localization.Node :=
  {| Localization.path_resolve := λ p, p;
     Localization.path_join := λ dir file, dir +:+ "/" +:+ file;
     Localization.path_basename := λ p ext,
       if String.eqb p "/locales/en.json" then "en"
       else if String.eqb p "/locales/it.json" then "it" else p;
     Localization.readdir := λ dir,
       if String.eqb dir "/locales" then
         Normal example_dirents
       else Throw (SystemError "ENOENT");
     Localization.readFile := λ p,
       if String.eqb p "/locales/en.json" then Normal "{}"
       else if String.eqb p "/locales/it.json" then Normal "{"
       else Throw (SystemError "ENOENT");
     Localization.JSON_parse := λ text,
       if String.eqb text "{}" then Normal (VObject [])
       else Throw (SyntaxError "Unexpected end of JSON input");
     Localization.settling := [1; 0]%nat |}.

Definition example_i18next : Localization.i18next :=
  {| Localization.initialized := None; Localization.language := None |}.

Definition example_LogPath : Loggers.LogPath :=
  {| Loggers.DEFAULT := "logs/default.log";
     Loggers.MAIN := "logs/main.log";
     Loggers.RENDERER := "logs/renderer.log";
     Loggers.F95API := "logs/f95api.log" |}.

(** A message box: bounded above, no lower bound, no close callback. *)
Definition example_messagebox : IWindowOptions.t :=
  {| IWindowOptions.name := "messagebox";
     IWindowOptions.size := {| Size.width := 450; Size.height := 230 |};
     IWindowOptions.minSize := None;
     IWindowOptions.maxSize := Some {| Size.width := 1600; Size.height := 900 |};
     IWindowOptions.hasFrame := Some false;
     IWindowOptions.parent := Some {| Electron.id := 1 |};
     IWindowOptions.args := Some (VObject [("type", VString "info")]);
     IWindowOptions.onclose := None |}.

(** A login window opened over the main window, with a close callback of
    its own and arguments that are falsy. *)
Definition example_login : IWindowOptions.t :=
  {| IWindowOptions.name := "login";
     IWindowOptions.size := {| Size.width := 400; Size.height := 250 |};
     IWindowOptions.minSize := None;
     IWindowOptions.maxSize := None;
     IWindowOptions.hasFrame := None;
     IWindowOptions.parent := Some {| Electron.id := 1 |};
     IWindowOptions.args := Some (VNumber (Num 0));
     IWindowOptions.onclose := Some 8%nat |}.

(** A resource directory with an English file cut short and an Italian
    file that may not be read; the failure to open the second is there
    before the first has been read and parsed. *)
Definition example_dirents_locked : list Localization.Dirent :=
  [{| Localization.name := "en.json"; Localization.isFile := true |};
   {| Localization.name := "it.json"; Localization.isFile := true |}].

Definition example_node_locked : Localization.Node :=
  {| Localization.path_resolve := λ p, p;
     Localization.path_join := λ dir file, dir +:+ "/" +:+ file;
     Localization.path_basename := λ p ext,
       if String.eqb p "/locales/en.json" then "en"
       else if String.eqb p "/locales/it.json" then "it" else p;
     Localization.readdir := λ dir,
       if String.eqb dir "/locales" then Normal example_dirents_locked
       else Throw (SystemError "ENOENT");
     Localization.readFile := λ p,
       if String.eqb p "/locales/en.json" then Normal "{"
       else if String.eqb p "/locales/it.json" then Throw (SystemError "EACCES")
       else Throw (SystemError "ENOENT");
     Localization.JSON_parse := λ text,
       if String.eqb text "{}" then Normal (VObject [])
       else Throw (SyntaxError "Unexpected end of JSON input");
     Localization.settling := [1; 0]%nat |}.

(** A resource directory in which every resource file is well formed. *)
Definition example_dirents_en : list Localization.Dirent :=
  [{| Localization.name := "en.json"; Localization.isFile := true |};
   {| Localization.name := "README.md"; Localization.isFile := true |}].

Definition example_node_en : Localization.Node :=
  {| Localization.path_resolve := λ p, p;
     Localization.path_join := λ dir file, dir +:+ "/" +:+ file;
     Localization.path_basename := λ p ext,
       if String.eqb p "/locales/en.json" then "en" else p;
     Localization.readdir := λ dir,
       if String.eqb dir "/locales" then Normal example_dirents_en
       else Throw (SystemError "ENOENT");
     Localization.readFile := λ p,
       if String.eqb p "/locales/en.json" then Normal "{}"
       else Throw (SystemError "ENOENT");
     Localization.JSON_parse := λ text,
       if String.eqb text "{}" then Normal (VObject [])
       else Throw (SyntaxError "Unexpected end of JSON input");
     Localization.settling := [0]%nat |}.

(** A rendering of values as text that tells the kinds apart only. *)
Definition example_text : LoginPreload.Text :=
  {| LoginPreload.ToString := λ v,
       match v with
       | VString s => s
       | VArray [] => ""
       | _ => "[object Object]"
       end |}.

(** A message box with two buttons on one row and one checkbox. *)
Definition example_page : Messagebox.Page :=
  {| Messagebox.header := {| Messagebox.scrollWidth := 400; Messagebox.scrollHeight := 48 |};
     Messagebox.roundedContainer :=
       {| Messagebox.scrollWidth := 405; Messagebox.scrollHeight := 90 |};
     Messagebox.buttons :=
       [{| Messagebox.scrollWidth := 120; Messagebox.scrollHeight := 36 |};
        {| Messagebox.scrollWidth := 140; Messagebox.scrollHeight := 36 |}];
     Messagebox.checkboxes :=
       [{| Messagebox.scrollWidth := 230; Messagebox.scrollHeight := 25 |}] |}.

(** * Properties *)

(** ** The IPC command router *)

Section RouterFacts.
Context `{Engine} `{Shared}.

Import WindowManager.

Lemma CatchAll_Normal {A : Type} (a : A) : CatchAll (Normal a) = Normal (Returned a).
Proof. reflexivity. Qed.

Lemma includes_spec (l : list string) (s : string) : includes l s = true ↔ s ∈ l.
Proof.
  unfold includes. rewrite existsb_exists. split.
  - intros (x & Hin & Heq). apply String.eqb_eq in Heq. subst x.
    by apply list_elem_of_In.
  - intros Hin. exists s. split; [by apply list_elem_of_In | apply String.eqb_refl].
Qed.

Lemma valid_channels (before : list Effect.t) (w : option IWindowData) (args : list value)
    (channel : string) :
  includes (Object_keys (map before w args)) channel = true ↔
  channel = "window-resize" ∨ channel = "window-size" ∨ channel = "window-center".
Proof.
  rewrite includes_spec. cbn. rewrite !elem_of_cons, elem_of_nil. tauto.
Qed.

Lemma resize_numeric (wd : IWindowData) (width height : Z) :
  resize [VNumber (Num width); VNumber (Num height)] wd =
  ([Effect.setSize (window wd)
      (VNumber (Num (clamped (Size.width <$> IWindowOptions.minSize (options wd))
                             (Size.width <$> IWindowOptions.maxSize (options wd)) width)))
      (VNumber (Num (clamped (Size.height <$> IWindowOptions.minSize (options wd))
                             (Size.height <$> IWindowOptions.maxSize (options wd)) height)))],
   Normal ()).
Proof.
  unfold resize, clamped, raised, lowered, Math_max, Math_min. cbn.
  destruct (IWindowOptions.minSize (options wd)) as [min|],
           (IWindowOptions.maxSize (options wd)) as [max|]; cbn;
    repeat case_match; repeat f_equal; lia.
Qed.

Lemma window_resize_runs_resize (before : list Effect.t) (wd : IWindowData)
    (args : list value) :
  windowIPCHandler before (Some wd) "window-resize" args
  = ((resize args wd).1, CatchAll (resize args wd).2).
Proof. unfold windowIPCHandler. cbn. by destruct (resize args wd). Qed.

(** The closure [resize] on any payload: each element goes its way to
    [setSize] on its own, the width first. *)
Lemma resize_applied (wd : IWindowData) (args : list value) :
  resize args wd =
  match applied (Size.width <$> IWindowOptions.minSize (options wd))
                (Size.width <$> IWindowOptions.maxSize (options wd)) (element 0 args),
        applied (Size.height <$> IWindowOptions.minSize (options wd))
                (Size.height <$> IWindowOptions.maxSize (options wd)) (element 1 args) with
  | Normal width, Normal height => ([Effect.setSize (window wd) width height], Normal ())
  | Throw e, _ | Normal _, Throw e => ([], Throw e)
  end.
Proof.
  unfold resize, applied, Math_max, Math_min, limited, clamped, raised, lowered.
  destruct (IWindowOptions.minSize (options wd)) as [min|],
           (IWindowOptions.maxSize (options wd)) as [max|]; cbn; try done;
    destruct (ToNumber (element 0 args)) as [[|a]|e0]; cbn; try done;
    destruct (ToNumber (element 1 args)) as [[|b]|e1]; cbn; try done;
    repeat case_match; repeat f_equal; lia.
Qed.

(** C3: a [window-resize] command with a numeric payload [[width, height]]
    makes the router apply to the handle the size in which each dimension,
    on its own, is raised to the [minSize] bound when [minSize] is present
    and then lowered to the [maxSize] bound when [maxSize] is present; so
    the payload [[2000, 300]] with [maxSize] 1600 x 900 and no [minSize] is
    applied as 1600 x 300. *)
Theorem window_resize_clamps (before : list Effect.t) (wd : IWindowData) (width height : Z) :
  windowIPCHandler before (Some wd) "window-resize" [VNumber (Num width); VNumber (Num height)]
  = ([Effect.setSize (window wd)
        (VNumber (Num (clamped (Size.width <$> IWindowOptions.minSize (options wd))
                               (Size.width <$> IWindowOptions.maxSize (options wd)) width)))
        (VNumber (Num (clamped (Size.height <$> IWindowOptions.minSize (options wd))
                               (Size.height <$> IWindowOptions.maxSize (options wd)) height)))],
     Normal (Returned ()))
  ∧ clamped None (Some 1600) 2000 = 1600
  ∧ clamped None (Some 900) 300 = 300.
Proof.
  split; [| by split].
  by rewrite window_resize_runs_resize, resize_numeric.
Qed.

Lemma invalid_channel_ignored (before : list Effect.t) (w : option IWindowData)
    (channel : string) (args : list value) :
  includes (Object_keys (map before w args)) channel = false →
  windowIPCHandler before w channel args = ([], Normal (Returned ())).
Proof. unfold windowIPCHandler, windowIPCHandler_body. by intros ->. Qed.

(** C7: on a channel that is none of [window-resize], [window-size] and
    [window-center] the router does nothing to the host and completes
    normally, whatever record and payload it is given. *)
Theorem unknown_channel_ignored (before : list Effect.t) (w : option IWindowData)
    (channel : string) (args : list value) :
  channel ≠ "window-resize" → channel ≠ "window-size" → channel ≠ "window-center" →
  windowIPCHandler before w channel args = ([], Normal (Returned ())).
Proof.
  intros Hresize Hsize Hcenter. apply invalid_channel_ignored.
  destruct (includes _ channel) eqn:Hvalid; [| done].
  apply valid_channels in Hvalid. destruct Hvalid as [?|[?|?]]; congruence.
Qed.

(** C10: the [window-resize] handler does not look at what its payload
    holds.  For every payload, also one with fewer than two elements or
    with elements that are no numbers, it takes the first two elements (a
    missing one is [undefined]) and hands each to [setSize] on its own
    terms: as it is when the record has neither [minSize] nor [maxSize], and
    as [Math.max] / [Math.min] leave it otherwise, which is its conversion
    to a number, clamped, and [NaN] when the conversion is [NaN] (as for
    [undefined]).  Only when that conversion throws (a [bigint], an object
    without conversion) is [setSize] not called: the [TypeError] of
    [Math.max] / [Math.min] goes to the error handler of the decorator, the
    one of the width first. *)
Theorem window_resize_unvalidated (before : list Effect.t) (wd : IWindowData)
    (args : list value) :
  windowIPCHandler before (Some wd) "window-resize" args
  = match applied (Size.width <$> IWindowOptions.minSize (options wd))
                  (Size.width <$> IWindowOptions.maxSize (options wd)) (element 0 args),
          applied (Size.height <$> IWindowOptions.minSize (options wd))
                  (Size.height <$> IWindowOptions.maxSize (options wd)) (element 1 args) with
    | Normal width, Normal height =>
        ([Effect.setSize (window wd) width height], Normal (Returned ()))
    | Throw e, _ | Normal _, Throw e => ([], CatchAll (Throw e))
    end
  ∧ (∀ v, applied None None v = Normal v)
  ∧ (∀ (lo : Z) (hi : option Z), applied (Some lo) hi (element 0 []) = Normal (VNumber NaN))
  ∧ (∀ (lo : option Z) (hi : Z), applied lo (Some hi) (element 0 []) = Normal (VNumber NaN))
  ∧ (∀ (lo : Z) (hi : option Z) (z : Z),
       applied (Some lo) hi (VBigInt z)
       = Throw (TypeError "Cannot convert a BigInt value to a number"))
  ∧ (∀ (lo : option Z) (hi : Z) (z : Z),
       applied lo (Some hi) (VBigInt z)
       = Throw (TypeError "Cannot convert a BigInt value to a number")).
Proof.
  split_and!.
  - rewrite window_resize_runs_resize, resize_applied. by repeat case_match.
  - done.
  - done.
  - intros lo hi. by destruct lo.
  - done.
  - intros lo hi z. by destruct lo.
Qed.

End RouterFacts.

(** ** The registry and the close promise *)

Section ManagerFacts.
Context `{Engine} `{Shared}.

Import WindowManager.

Lemma perform_nil (m : t) : perform [] m = m.
Proof. destruct m. unfold perform. cbn. by rewrite app_nil_r. Qed.

Lemma remove_once_sublist e ev ls : remove_once e ev ls `sublist_of` ls.
Proof.
  induction ls as [|r ls IH]; cbn; [done |].
  case_decide; [by apply sublist_cons | by apply sublist_skip].
Qed.

Lemma run_listener_frame (l : Listener) (ev : Electron.Event) (m : t) :
  listeners (run_listener l ev m).1 = listeners m
  ∧ nextId (run_listener l ev m).1 = nextId m
  ∧ WindowsList (run_listener l ev m).1 = WindowsList m.
Proof.
  destruct l, ev; cbn; 
    unfold run_on_ipc_message, run_on_ipc_close, run_on_close, windowIPCHandler;
    repeat (case_match; cbn; simplify_eq); try done.
Qed.

Lemma Forall_of_sublist {A : Type} (P : A → Prop) (k l : list A) :
  k `sublist_of` l → Forall P l → Forall P k.
Proof.
  induction 1 as [|x k l _ IH|x k l _ IH]; intros Hl; [done | |].
  - apply Forall_cons in Hl as [? ?]. constructor; auto.
  - apply Forall_cons in Hl as [? ?]. auto.
Qed.

Lemma run_listeners_frame e ev rs (m : t) :
  listeners (run_listeners e ev rs m).1 `sublist_of` listeners m
  ∧ nextId (run_listeners e ev rs m).1 = nextId m
  ∧ WindowsList (run_listeners e ev rs m).1 = WindowsList m.
Proof.
  revert m. induction rs as [|r rs IH]; intros m; cbn; [done |].
  set (m0 := if once r then set_listeners (remove_once e ev) m else m).
  assert (Hm0 : listeners m0 `sublist_of` listeners m ∧ nextId m0 = nextId m
                ∧ WindowsList m0 = WindowsList m).
  { unfold m0. destruct (once r); cbn; [| done].
    split; [apply remove_once_sublist | done]. }
  destruct Hm0 as (Hl0 & Hn0 & Hw0).
  destruct (run_listener_frame (listener r) ev m0) as (Hl1 & Hn1 & Hw1).
  destruct (run_listener (listener r) ev m0) as [m1 [err|]]; cbn in *.
  - rewrite Hl1, Hn1, Hw1. done.
  - destruct (IH m1) as (Hl2 & Hn2 & Hw2).
    rewrite Hn2, Hw2, Hn1, Hw1. split_and!; try done.
    etrans; [exact Hl2 |]. by rewrite Hl1.
Qed.

Lemma wf_empty : wf empty.
Proof. constructor. Qed.

Lemma wf_emit e ev (m : t) : wf m → wf (emit e ev m).1.
Proof.
  unfold wf, emit. intros Hwf.
  destruct (run_listeners_frame e ev (filter (listens e ev) (listeners m)) m)
    as (Hl & Hn & _).
  rewrite Hn. eapply Forall_of_sublist; [exact Hl | exact Hwf].
Qed.

Lemma wf_weaken (ls : list Registration) (n : Z) :
  Forall (λ r, emitter_id (emitter r) < n) ls →
  Forall (λ r, emitter_id (emitter r) < Z.succ n) ls.
Proof. intros Hls. eapply Forall_impl; [exact Hls |]. intros r ?. cbn in *. lia. Qed.

Lemma wf_createBaseWindow (m : t) (options : IWindowOptions.t) :
  wf m → wf (createBaseWindow m options).1.
Proof.
  unfold wf, createBaseWindow, createClosePromise. intros Hwf.
  destruct (IWindowOptions.onclose options); cbn;
    rewrite ?Forall_app; split_and!; try (by apply wf_weaken);
    repeat constructor; cbn; lia.
Qed.

Lemma reachable_wf (m : t) : reachable m → wf m.
Proof.
  induction 1; [apply wf_empty | by apply wf_createBaseWindow | by apply wf_emit].
Qed.

Lemma filter_foreign e ev (ls : list Registration) :
  Forall (λ r, emitter_id (emitter r) < emitter_id e) ls → filter (listens e ev) ls = [].
Proof.
  induction 1 as [|r ls Hr _ IH]; [done |].
  rewrite filter_cons_False; [done |].
  intros [Heq _]. rewrite Heq in Hr. lia.
Qed.

Ltac own_listeners :=
  repeat first
    [ rewrite filter_nil
    | rewrite filter_cons_True by (split; reflexivity)
    | rewrite filter_cons_False by (intros [? ?]; discriminate) ].

Lemma createBaseWindow_unfold (m : t) (options : IWindowOptions.t) :
  let w := {| Electron.id := nextId m |} in
  createBaseWindow m options =
  ({| WindowsList :=
        <[IWindowOptions.name options := {| window := w; options := options |}]>
          (WindowsList m);
      nextId := Z.succ (nextId m);
      listeners := listeners m ++ registered w options (length (promises m));
      promises :=
        promises m ++ match IWindowOptions.onclose options with
                      | Some _ => [{| closeWithIPC := false; state := Pending |}]
                      | None => []
                      end;
      log := log m ++ [Effect.new_BrowserWindow w (constructor_options options);
                       Effect.setMenuBarVisibility w
                         (isDev || store_has ("menubar-" +:+ IWindowOptions.name options))] |},
   match IWindowOptions.onclose options with
   | Some _ => Some (length (promises m))
   | None => None
   end).
Proof.
  destruct m as [wl n ls ps lg].
  destruct (IWindowOptions.onclose options) eqn:Hclose;
    cbv [createBaseWindow createClosePromise registered on once_ set_listeners set_promises
         perform set_WindowsList set_nextId listeners promises log WindowsList nextId
         Electron.id fst snd];
    rewrite Hclose;
    cbv [createBaseWindow createClosePromise registered on once_ set_listeners set_promises
         perform set_WindowsList set_nextId listeners promises log WindowsList nextId
         Electron.id fst snd];
    rewrite <- ?app_assoc, ?app_nil_r; reflexivity.
Qed.

Lemma created_promise (m : t) (options : IWindowOptions.t) (f : Callback) :
  IWindowOptions.onclose options = Some f →
  (createBaseWindow m options).2 = Some (length (promises m))
  ∧ promises (createBaseWindow m options).1 !! length (promises m)
    = Some {| closeWithIPC := false; state := Pending |}.
Proof.
  intros Hclose. rewrite createBaseWindow_unfold, Hclose. cbn [fst snd promises].
  split; [done |]. by rewrite lookup_app_r, Nat.sub_diag.
Qed.

(** The listeners of a window made in a well-formed manager are those that
    [createBaseWindow] registered for it. *)
Lemma created_ipc_listeners (m : t) (options : IWindowOptions.t) (f : Callback)
    (channel : string) (args : list value) :
  wf m → IWindowOptions.onclose options = Some f →
  filter (listens (Electron.WebContents (nextId m)) (Electron.ipc_message channel args))
         (listeners (createBaseWindow m options).1)
  = [{| emitter := Electron.WebContents (nextId m); event := "ipc-message"; once := false;
        listener := on_ipc_message (IWindowOptions.name options) |};
     {| emitter := Electron.WebContents (nextId m); event := "ipc-message"; once := false;
        listener := on_ipc_close {| Electron.id := nextId m |} (Some f)
                      (length (promises m)) |}].
Proof.
  intros Hwf Hclose. rewrite createBaseWindow_unfold. unfold registered.
  rewrite Hclose. cbn [fst listeners Electron.id].
  rewrite !filter_app, (filter_foreign _ _ (listeners m)) by exact Hwf.
  by own_listeners.
Qed.

Lemma created_close_listeners (m : t) (options : IWindowOptions.t) (f : Callback) :
  wf m → IWindowOptions.onclose options = Some f →
  filter (listens (Electron.Window (nextId m)) Electron.closing)
         (listeners (createBaseWindow m options).1)
  = [{| emitter := Electron.Window (nextId m); event := "close"; once := false;
        listener := on_close (Some f) (length (promises m)) |}].
Proof.
  intros Hwf Hclose. rewrite createBaseWindow_unfold. unfold registered.
  rewrite Hclose. cbn [fst listeners Electron.id].
  rewrite !filter_app, (filter_foreign _ _ (listeners m)) by exact Hwf.
  by own_listeners.
Qed.

(** The router leaves [window-close] to the listener of the close promise. *)
Lemma router_skips_window_close (name : string) (args : list value) (m : t) :
  run_on_ipc_message name "window-close" args m = (m, None).
Proof.
  unfold run_on_ipc_message.
  rewrite invalid_channel_ignored by reflexivity. cbn. by rewrite perform_nil.
Qed.

Lemma run_on_ipc_close_listeners w f p channel args (m : t) :
  listeners (run_on_ipc_close w f p channel args m).1 = listeners m.
Proof.
  unfold run_on_ipc_close. repeat (case_match; cbn; simplify_eq); done.
Qed.

Lemma emit_window_close (m : t) (options : IWindowOptions.t) (f : Callback)
    (args : list value) :
  wf m → IWindowOptions.onclose options = Some f →
  emit (Electron.WebContents (nextId m)) (Electron.ipc_message "window-close" args)
       (createBaseWindow m options).1
  = run_on_ipc_close {| Electron.id := nextId m |} (Some f) (length (promises m))
      "window-close" (element 0 args) (createBaseWindow m options).1.
Proof.
  intros Hwf Hclose. unfold emit.
  rewrite (created_ipc_listeners m options f) by done.
  cbn [run_listeners once listener run_listener].
  rewrite router_skips_window_close.
  by destruct (run_on_ipc_close _ _ _ _ _ _) as [m2 [e|]].
Qed.

Lemma emit_closing (m : t) (options : IWindowOptions.t) (f : Callback) (m2 : t) :
  wf m → IWindowOptions.onclose options = Some f →
  listeners m2 = listeners (createBaseWindow m options).1 →
  emit (Electron.Window (nextId m)) Electron.closing m2
  = run_on_close (Some f) (length (promises m)) m2.
Proof.
  intros Hwf Hclose Hsame. unfold emit.
  rewrite Hsame, (created_close_listeners m options f) by done.
  cbn [run_listeners once listener run_listener].
  by destruct (run_on_close _ _ _) as [m3 [e|]].
Qed.

(** The IPC edge on a payload that is an array. *)
Lemma ipc_close_array (w : BrowserWindow) (f : Callback) (p : nat) (l : list value)
    (m : t) (c : ClosePromise) :
  promises m !! p = Some c →
  let after := run_on_ipc_close w (Some f) p "window-close" (VArray l) m in
  after.2 = None
  ∧ log after.1 = log m ++ [Effect.onclose f l; Effect.close w; Effect.resolve p (VArray l)]
  ∧ promises after.1 !! p
    = Some {| closeWithIPC := true; state := state (settle (VArray l) c) |}.
Proof.
  intros Hp. destruct m as [wl n ls ps lg]. cbn in Hp.
  cbv [run_on_ipc_close String.eqb Ascii.eqb Bool.eqb ToBoolean spread resolve perform
       set_closeWithIPC set_promises promises log WindowsList nextId listeners fst snd].
  split_and!; [done | by rewrite <- !app_assoc |].
  rewrite !list_lookup_alter_eq, Hp. reflexivity.
Qed.

(** The IPC edge on a payload that is falsy and cannot be spread, such as
    the [undefined] of a message without payload: the callback is called and
    the close requested, then [[...args]] throws, before [resolve]. *)
Lemma ipc_close_not_iterable (w : BrowserWindow) (f : Callback) (p : nat) (args : value)
    (e : error) (m : t) (c : ClosePromise) :
  promises m !! p = Some c → ToBoolean args = false → spread args = Throw e →
  let after := run_on_ipc_close w (Some f) p "window-close" args m in
  after.2 = Some e
  ∧ log after.1 = log m ++ [Effect.onclose f []; Effect.close w]
  ∧ promises after.1 !! p = Some {| closeWithIPC := true; state := state c |}
  ∧ listeners after.1 = listeners m.
Proof.
  intros Hp Hfalsy Hspread. destruct m as [wl n ls ps lg]. cbn in Hp.
  cbv [run_on_ipc_close String.eqb Ascii.eqb Bool.eqb]. rewrite Hfalsy, Hspread.
  cbv [resolve perform set_closeWithIPC set_promises promises log WindowsList nextId
       listeners fst snd].
  split_and!; [done | by rewrite <- !app_assoc | | done].
  by rewrite list_lookup_alter_eq, Hp.
Qed.

(** The native edge. *)
Lemma native_close_after_ipc (f : Callback) (p : nat) (m : t) (c : ClosePromise) :
  promises m !! p = Some c → closeWithIPC c = true →
  run_on_close (Some f) p m = (m, None).
Proof. intros Hp Hflag. unfold run_on_close. by rewrite Hp; cbn; rewrite Hflag. Qed.

Lemma native_close_first (f : Callback) (p : nat) (m : t) (c : ClosePromise) :
  promises m !! p = Some c → closeWithIPC c = false →
  let after := run_on_close (Some f) p m in
  after.2 = None
  ∧ log after.1 = log m ++ [Effect.onclose f [VNull]; Effect.resolve p VNull]
  ∧ promises after.1 !! p = Some (settle VNull c).
Proof.
  intros Hp Hflag. destruct m as [wl n ls ps lg]. cbn in Hp.
  unfold run_on_close. cbn [promises]. rewrite Hp. cbn. rewrite Hflag. cbn.
  split_and!; [done | by rewrite <- !app_assoc |].
  by rewrite list_lookup_alter_eq, Hp.
Qed.

(** *** [get] *)

Lemma find_none_of {A : Type} (f : A → bool) (l : list A) :
  (∀ x, x ∈ l → f x = false) → find f l = None.
Proof.
  induction l as [|x l IH]; intros Hall; [done |]. cbn.
  rewrite (Hall x) by left. apply IH. intros y Hy. apply Hall. by right.
Qed.

(** An id no registered window has: [get] returns [null]. *)
Lemma get_unknown_id (m : t) (n : number) :
  (∀ name wd, WindowsList m !! name = Some wd → id_is n (window wd) = false) →
  get m (VNumber n) = Normal (Returned None).
Proof.
  intros Hunknown. unfold get, get_body, Object_values. cbn.
  rewrite find_none_of; [done |].
  intros w Hw. apply list_elem_of_fmap in Hw as (wd & -> & Hwd).
  apply list_elem_of_fmap in Hwd as ([name wd'] & -> & Hin).
  apply elem_of_map_to_list in Hin. by eapply Hunknown.
Qed.

(** C1: for a name under which no window is registered the body of [get]
    does not reach its [return]: it throws a [TypeError] when it reads
    [.window] of the empty slot, and the caller receives what the
    [CatchAll] decorator makes of that error, not the [null] the body would
    have returned.  (An unknown numeric id does give [null]:
    [get_unknown_id].) *)
Theorem get_unknown_name_throws (m : t) (name : string) :
  WindowsList m !! name = None →
  get_body m (VString name)
  = Throw (TypeError "Cannot read properties of undefined (reading 'window')")
  ∧ get m (VString name)
    = match ehandler (TypeError "Cannot read properties of undefined (reading 'window')") with
      | Normal v => Normal (Handled v)
      | Throw e => Throw e
      end
  ∧ get m (VString name) ≠ Normal (Returned None).
Proof.
  intros Hunknown. unfold get, get_body. rewrite Hunknown. cbn.
  split_and!; [done | done |]. by destruct (ehandler _).
Qed.

(** *** [createBaseWindow] *)

(** C6: [createBaseWindow] stores the new record under [options.name]
    whatever the registry held there before, and leaves the entry of every
    other name as it was. *)
Theorem createBaseWindow_registers (m : t) (options : IWindowOptions.t) :
  WindowsList (createBaseWindow m options).1 !! IWindowOptions.name options
  = Some {| window := {| Electron.id := nextId m |}; options := options |}
  ∧ ∀ other : string, other ≠ IWindowOptions.name options →
      WindowsList (createBaseWindow m options).1 !! other = WindowsList m !! other.
Proof.
  rewrite createBaseWindow_unfold. cbn [fst WindowsList]. split.
  - apply lookup_insert_eq.
  - intros other Hother. by apply lookup_insert_ne.
Qed.

(** *** The close promise of a created window *)

(** The IPC edge first, on an array: the callback gets the elements, the
    close is requested, the promise is fulfilled with a copy of the array;
    the native edge after it changes nothing. *)
Lemma close_promise_ipc_first (m : t) (options : IWindowOptions.t) (f : Callback)
    (l : list value) :
  reachable m → IWindowOptions.onclose options = Some f →
  let w := {| Electron.id := nextId m |} in
  let p := length (promises m) in
  let m1 := (createBaseWindow m options).1 in
  let ipc := emit (Electron.WebContents (nextId m))
               (Electron.ipc_message "window-close" [VArray l]) m1 in
  ipc.2 = None
  ∧ log ipc.1 = log m1 ++ [Effect.onclose f l; Effect.close w; Effect.resolve p (VArray l)]
  ∧ promises ipc.1 !! p = Some {| closeWithIPC := true; state := Fulfilled (VArray l) |}
  ∧ emit (Electron.Window (nextId m)) Electron.closing ipc.1 = (ipc.1, None).
Proof.
  intros Hreach Hclose w p m1 ipc. apply reachable_wf in Hreach.
  destruct (created_promise m options f Hclose) as [_ Hp].
  assert (Hipc : ipc = run_on_ipc_close w (Some f) p "window-close" (VArray l) m1)
    by (by apply emit_window_close).
  destruct (ipc_close_array w f p l m1 _ Hp) as (Hok & Hlog & Hcell).
  rewrite Hipc. split_and!; [done | done | done |].
  rewrite (emit_closing m options f) by (done || apply run_on_ipc_close_listeners).
  by eapply native_close_after_ipc.
Qed.

(** The native edge first: the callback gets [null] and the promise is
    fulfilled with [null]. *)
Lemma close_promise_native_first (m : t) (options : IWindowOptions.t) (f : Callback) :
  reachable m → IWindowOptions.onclose options = Some f →
  let p := length (promises m) in
  let m1 := (createBaseWindow m options).1 in
  let native := emit (Electron.Window (nextId m)) Electron.closing m1 in
  native.2 = None
  ∧ log native.1 = log m1 ++ [Effect.onclose f [VNull]; Effect.resolve p VNull]
  ∧ promises native.1 !! p = Some {| closeWithIPC := false; state := Fulfilled VNull |}.
Proof.
  intros Hreach Hclose p m1 native. apply reachable_wf in Hreach.
  destruct (created_promise m options f Hclose) as [_ Hp].
  unfold native. rewrite (emit_closing m options f) by done.
  by apply (native_close_first f p m1 _ Hp).
Qed.

(** A window made without a close callback: no promise is made, and
    neither close edge has a listener that does anything. *)
Lemma created_without_callback (m : t) (options : IWindowOptions.t) (args : list value) :
  wf m → IWindowOptions.onclose options = None →
  let m1 := (createBaseWindow m options).1 in
  promises m1 = promises m
  ∧ emit (Electron.Window (nextId m)) Electron.closing m1 = (m1, None)
  ∧ emit (Electron.WebContents (nextId m)) (Electron.ipc_message "window-close" args) m1
    = (m1, None).
Proof.
  intros Hwf Hclose m1. unfold m1, emit. rewrite createBaseWindow_unfold. unfold registered.
  rewrite Hclose. cbn [fst listeners promises Electron.id].
  rewrite !filter_app, !(filter_foreign _ _ (listeners m)) by exact Hwf.
  split_and!; [by rewrite app_nil_r | by own_listeners |].
  own_listeners. cbn [app run_listeners once listener run_listener].
  by rewrite router_skips_window_close.
Qed.

(** C5: [createBaseWindow] returns a close promise exactly when its
    configuration has a close callback, and [null] exactly when it has
    none.  The promise it returns is a new one, pending, and it is the
    promise of the closing of the window just made: the native close of that
    window calls the callback with [null] and fulfils it with [null], and a
    [window-close] message of its content with an array calls the callback
    with the elements, requests the close and fulfils it with the array.
    When [null] is returned no promise has been made and neither close edge
    of the window does anything. *)
Theorem createBaseWindow_returns_promise (m : t) (options : IWindowOptions.t) :
  (is_Some (createBaseWindow m options).2 ↔ is_Some (IWindowOptions.onclose options))
  ∧ ((createBaseWindow m options).2 = None ↔ IWindowOptions.onclose options = None)
  ∧ (∀ p, (createBaseWindow m options).2 = Some p →
       promises m !! p = None
       ∧ promises (createBaseWindow m options).1 !! p
         = Some {| closeWithIPC := false; state := Pending |})
  ∧ (reachable m →
     let w := {| Electron.id := nextId m |} in
     let m1 := (createBaseWindow m options).1 in
     let native := emit (Electron.Window (nextId m)) Electron.closing m1 in
     (∀ p, (createBaseWindow m options).2 = Some p →
        ∃ f, IWindowOptions.onclose options = Some f
          ∧ native.2 = None
          ∧ log native.1 = log m1 ++ [Effect.onclose f [VNull]; Effect.resolve p VNull]
          ∧ promises native.1 !! p
            = Some {| closeWithIPC := false; state := Fulfilled VNull |}
          ∧ ∀ l, let ipc := emit (Electron.WebContents (nextId m))
                              (Electron.ipc_message "window-close" [VArray l]) m1 in
                 ipc.2 = None
                 ∧ log ipc.1
                   = log m1 ++ [Effect.onclose f l; Effect.close w; Effect.resolve p (VArray l)]
                 ∧ promises ipc.1 !! p
                   = Some {| closeWithIPC := true; state := Fulfilled (VArray l) |})
     ∧ ((createBaseWindow m options).2 = None →
        promises m1 = promises m
        ∧ native = (m1, None)
        ∧ ∀ args, emit (Electron.WebContents (nextId m))
                    (Electron.ipc_message "window-close" args) m1 = (m1, None))).
Proof.
  split_and!.
  - rewrite createBaseWindow_unfold. cbn [snd].
    destruct (IWindowOptions.onclose options); [done |]. split; intros []; done.
  - rewrite createBaseWindow_unfold. cbn [snd].
    by destruct (IWindowOptions.onclose options).
  - rewrite createBaseWindow_unfold. cbn [fst snd promises].
    destruct (IWindowOptions.onclose options) as [f|]; [| done]. intros p [= <-].
    split; [by apply lookup_ge_None_2 | by rewrite lookup_app_r, Nat.sub_diag].
  - intros Hreach w m1 native. split.
    + intros p Hp. destruct (IWindowOptions.onclose options) as [f|] eqn:Hclose.
      * destruct (created_promise m options f Hclose) as [Hret _].
        rewrite Hret in Hp. injection Hp as <-.
        destruct (close_promise_native_first m options f Hreach Hclose) as (? & ? & ?).
        exists f. split_and!; try done.
        intros l.
        destruct (close_promise_ipc_first m options f l Hreach Hclose) as (? & ? & ? & _).
        by split_and!.
      * rewrite createBaseWindow_unfold, Hclose in Hp. done.
    + intros Hnone. assert (Hclose : IWindowOptions.onclose options = None).
      { rewrite createBaseWindow_unfold in Hnone. cbn [snd] in Hnone.
        by destruct (IWindowOptions.onclose options). }
      apply reachable_wf in Hreach. split_and!.
      * by apply (created_without_callback m options []).
      * by apply (created_without_callback m options []).
      * intros args. by apply (created_without_callback m options args).
Qed.

(** The IPC edge first, on a message without payload: the callback is
    called without arguments and the close requested, then [[...args]]
    throws and [resolve] is not reached; the native edge after it finds the
    flag set and changes nothing. *)
Lemma close_promise_ipc_without_payload (m : t) (options : IWindowOptions.t)
    (f : Callback) :
  reachable m → IWindowOptions.onclose options = Some f →
  let w := {| Electron.id := nextId m |} in
  let p := length (promises m) in
  let m1 := (createBaseWindow m options).1 in
  let ipc := emit (Electron.WebContents (nextId m))
               (Electron.ipc_message "window-close" []) m1 in
  ipc.2 = Some (TypeError "value is not iterable")
  ∧ log ipc.1 = log m1 ++ [Effect.onclose f []; Effect.close w]
  ∧ promises ipc.1 !! p = Some {| closeWithIPC := true; state := Pending |}
  ∧ emit (Electron.Window (nextId m)) Electron.closing ipc.1 = (ipc.1, None).
Proof.
  intros Hreach Hclose w p m1 ipc. apply reachable_wf in Hreach.
  destruct (created_promise m options f Hclose) as [_ Hp].
  assert (Hipc : ipc = run_on_ipc_close w (Some f) p "window-close" VUndefined m1)
    by (by apply emit_window_close).
  destruct (ipc_close_not_iterable w f p VUndefined _ m1 _ Hp eq_refl eq_refl)
    as (Herr & Hlog & Hcell & Hsame).
  rewrite Hipc. split_and!; [done | done | done |].
  rewrite (emit_closing m options f) by done.
  by eapply native_close_after_ipc.
Qed.

(** C2: a window made with a close callback, and the IPC edge firing first
    on a [window-close] message that carries no payload.  The listener calls
    the callback, sets [closeWithIPC], requests the close and then throws at
    [[...args]] before it reaches [resolve]; the native close that follows
    finds the flag set and does nothing.  After both edges the promise is
    still pending: it has been resolved not once but never. *)
Theorem close_without_payload_never_resolves (m : t) (options : IWindowOptions.t)
    (f : Callback) :
  reachable m → IWindowOptions.onclose options = Some f →
  let w := {| Electron.id := nextId m |} in
  let p := length (promises m) in
  let m1 := (createBaseWindow m options).1 in
  let ipc := emit (Electron.WebContents (nextId m))
               (Electron.ipc_message "window-close" []) m1 in
  let native := emit (Electron.Window (nextId m)) Electron.closing ipc.1 in
  (createBaseWindow m options).2 = Some p
  ∧ promises m1 !! p = Some {| closeWithIPC := false; state := Pending |}
  ∧ log native.1 = log m1 ++ [Effect.onclose f []; Effect.close w]
  ∧ promises native.1 !! p = Some {| closeWithIPC := true; state := Pending |}.
Proof.
  intros Hreach Hclose w p m1 ipc native.
  destruct (created_promise m options f Hclose) as [Hret Hp].
  destruct (close_promise_ipc_without_payload m options f Hreach Hclose)
    as (_ & Hlog & Hcell & Hnative).
  subst native ipc m1 w p. cbn zeta in *. rewrite Hnative. by split_and!.
Qed.

(** C4: the IPC edge of a window made with a close callback.  On a payload
    that is an array the listener calls the callback with its elements,
    requests the close and fulfils the promise with the array: also with
    the empty array when the payload is empty, since [[...args] ?? null] is
    [[...args]], which is never nullish.  On a message without payload it
    calls the callback without arguments, requests the close and throws at
    [[...args]] without resolving.  In neither case is the promise resolved
    with [null]. *)
Theorem window_close_never_resolves_with_null (m : t) (options : IWindowOptions.t)
    (f : Callback) (l : list value) :
  reachable m → IWindowOptions.onclose options = Some f →
  let w := {| Electron.id := nextId m |} in
  let p := length (promises m) in
  let m1 := (createBaseWindow m options).1 in
  let ipc := emit (Electron.WebContents (nextId m))
               (Electron.ipc_message "window-close" [VArray l]) m1 in
  let bare := emit (Electron.WebContents (nextId m))
                (Electron.ipc_message "window-close" []) m1 in
  (ipc.2 = None
   ∧ log ipc.1 = log m1 ++ [Effect.onclose f l; Effect.close w; Effect.resolve p (VArray l)]
   ∧ promises ipc.1 !! p = Some {| closeWithIPC := true; state := Fulfilled (VArray l) |})
  ∧ (bare.2 = Some (TypeError "value is not iterable")
     ∧ log bare.1 = log m1 ++ [Effect.onclose f []; Effect.close w]
     ∧ promises bare.1 !! p = Some {| closeWithIPC := true; state := Pending |}).
Proof.
  intros Hreach Hclose w p m1 ipc bare.
  destruct (close_promise_ipc_first m options f l Hreach Hclose) as (? & ? & ? & _).
  destruct (close_promise_ipc_without_payload m options f Hreach Hclose) as (? & ? & ? & _).
  by split_and!.
Qed.

End ManagerFacts.

(** ** The localization loader *)

Section LoaderFacts.
Context `{Shared} `{Localization.Node}.

Import Localization.





End LoaderFacts.

(** ** The logging configurator *)

Section ConfiguratorFacts.
Context `{Shared} `{Loggers.LogPath}.

Import Loggers.

Lemma run_snoc (history : list Call) (c : Call) : run (history ++ [c]) = step (run history) c.
Proof. unfold run. by rewrite foldl_app. Qed.

(** [initialized] is true exactly from the first [init()] on. *)
Lemma initialized_run (history : list Call) :
  initialized (run history) = true ↔ call_init ∈ history.
Proof.
  induction history as [|c history IH] using rev_ind.
  - cbn. split; [done | by intros ?%elem_of_nil].
  - rewrite run_snoc, elem_of_app, list_elem_of_singleton.
    destruct c as [|category]; cbn.
    + split; [by right | done].
    + rewrite IH. split; [by left | by intros [?|?]].
Qed.

(** C9: after any history of calls, [get(category)] throws exactly when the
    history holds no [init()]; and when it holds one, [get] returns the
    logger log4js hands out for the requested category, for each of the
    categories. *)
Theorem get_throws_iff_not_initialized (history : list Call) (category : TLoggerCategory) :
  ((∃ e, get (run history) category = Throw e) ↔ call_init ∉ history)
  ∧ (call_init ∉ history →
     get (run history) category = Throw (Error "Loggers not initiailized"))
  ∧ (call_init ∈ history →
     get (run history) category
     = Normal (getLogger (run history) (category_name category))).
Proof.
  unfold get. pose proof (initialized_run history) as Hinit.
  destruct (initialized (run history)); cbn.
  - assert (call_init ∈ history) by by apply Hinit.
    split_and!; [| done | done]. split; [by intros [e ?] | done].
  - assert (call_init ∉ history) by (intros ?%Hinit; done).
    split_and!; [| done | done]. split; [done | by eexists].
Qed.

End ConfiguratorFacts.

(** ** More of the window manager *)

Section RegistryFacts.
Context `{Engine} `{Shared}.

Import WindowManager.

Lemma emit_frame e ev (m : t) :
  nextId (emit e ev m).1 = nextId m ∧ WindowsList (emit e ev m).1 = WindowsList m.
Proof.
  unfold emit.
  destruct (run_listeners_frame e ev (filter (listens e ev) (listeners m)) m) as (_ & ? & ?).
  done.
Qed.

Lemma reachable_ids (m : t) : reachable m → ids_below m ∧ ids_distinct m.
Proof.
  induction 1 as [|m options _ [IHb IHd]|m e ev _ [IHb IHd]].
  - split; intros ?; intros; by simplify_map_eq.
  - rewrite createBaseWindow_unfold. cbn [fst]. split.
    + intros name wd. cbn [WindowsList nextId]. 
      rewrite lookup_insert. case_decide; [intros [= <-]; cbn; lia |].
      intros Hwd%IHb. lia.
    + intros n1 n2 wd1 wd2. cbn [WindowsList].
      rewrite !lookup_insert. repeat case_decide; simplify_eq; try done.
      * intros [= <-] Hwd2%IHb. cbn. lia.
      * intros Hwd1%IHb [= <-]. cbn. lia.
      * apply IHd.
  - destruct (emit_frame e ev m) as [Hn Hw]. split.
    + intros name wd. rewrite Hn, Hw. apply IHb.
    + intros n1 n2 wd1 wd2. rewrite Hw. apply IHd.
Qed.

(** [find] on a list in which the wanted element is the only one to pass. *)
Lemma find_only {A : Type} (f : A → bool) (l : list A) (x : A) :
  x ∈ l → f x = true → (∀ y, y ∈ l → f y = true → y = x) → find f l = Some x.
Proof.
  induction l as [|y l IH]; [by intros ?%elem_of_nil |].
  intros Hin Hx Honly. cbn. destruct (f y) eqn:Hy.
  - f_equal. apply Honly; [left | done].
  - apply IH; [| done | intros z Hz; apply Honly; by right].
    apply elem_of_cons in Hin as [->|?]; [congruence | done].
Qed.

Lemma find_some_passing {A : Type} (f : A → bool) (l : list A) (x : A) :
  x ∈ l → f x = true → ∃ y, find f l = Some y ∧ f y = true.
Proof.
  induction l as [|z l IH]; [by intros ?%elem_of_nil |].
  intros Hin Hx. cbn. destruct (f z) eqn:Hz; [by exists z |].
  apply IH; [| done]. apply elem_of_cons in Hin as [->|?]; [congruence | done].
Qed.

Lemma registered_window_listed (l : gmap string IWindowData) (name : string)
    (wd : IWindowData) :
  l !! name = Some wd → window wd ∈ window <$> Object_values l.
Proof.
  intros Hwd. apply list_elem_of_fmap. exists wd. split; [done |].
  unfold Object_values. apply list_elem_of_fmap. exists (name, wd).
  split; [done | by apply elem_of_map_to_list].
Qed.

(** X1: the window [createBaseWindow] has made is what [get] returns for
    its name right after, and [get] answers for every other name as it did
    before. *)
Theorem get_created_by_name (m : t) (options : IWindowOptions.t) :
  get (createBaseWindow m options).1 (VString (IWindowOptions.name options))
  = Normal (Returned (Some {| Electron.id := nextId m |}))
  ∧ ∀ other : string, other ≠ IWindowOptions.name options →
      get (createBaseWindow m options).1 (VString other) = get m (VString other).
Proof.
  unfold get, get_body. rewrite createBaseWindow_unfold. cbn [fst WindowsList]. split.
  - by rewrite lookup_insert_eq.
  - intros other Hother. by rewrite lookup_insert_ne.
Qed.

(** X2: a window that is in the registry, under whatever name, is what
    [get] returns for its id. *)
Theorem get_registered_by_id (m : t) (name : string) (wd : IWindowData) :
  WindowsList m !! name = Some wd →
  get m (VNumber (Num (Electron.id (window wd)))) = Normal (Returned (Some (window wd))).
Proof.
  intros Hwd. unfold get, get_body. cbn.
  destruct (find_some_passing (id_is (Num (Electron.id (window wd))))
              (window <$> Object_values (WindowsList m)) (window wd))
    as (w & -> & Hw).
  - by eapply registered_window_listed.
  - cbn. apply Z.eqb_refl.
  - cbn in Hw. apply Z.eqb_eq in Hw. destruct w as [i], (window wd) as [j].
    cbn in Hw. by subst.
Qed.

Lemma filter_fmap_none {A B : Type} (f : A → B) (P : B → bool) (l : list A) :
  (∀ y, y ∈ l → P (f y) = false) → filter (λ b, P b = true) (f <$> l) = [].
Proof.
  induction l as [|y l IH]; intros Hall; [done |]. cbn [fmap list_fmap].
  rewrite filter_cons_False.
  - apply IH. intros z Hz. apply Hall. by right.
  - rewrite (Hall y); [done | by left].
Qed.

(** Filtering the image of a duplicate-free list in which one element only
    can pass. *)
Lemma filter_fmap_only {A B : Type} (f : A → B) (P : B → bool) (l : list A) (x : A) :
  NoDup l → x ∈ l → (∀ y, y ∈ l → y ≠ x → P (f y) = false) →
  filter (λ b, P b = true) (f <$> l) = if P (f x) then [f x] else [].
Proof.
  induction 1 as [|z l Hz Hnodup IH]; [by intros ?%elem_of_nil |].
  intros Hin Hothers. cbn [fmap list_fmap].
  apply elem_of_cons in Hin as [<-|Hin].
  - assert (Hrest : filter (λ b, P b = true) (f <$> l) = []).
    { apply filter_fmap_none. intros y Hy. apply Hothers; [by right |].
      intros ->. done. }
    destruct (P (f x)) eqn:Hx.
    + by rewrite filter_cons_True, Hrest.
    + rewrite filter_cons_False, Hrest; [done | by rewrite Hx].
  - assert (Hzx : z ≠ x) by (by intros ->).
    rewrite filter_cons_False.
    + apply IH; [done |]. intros y Hy. apply Hothers. by right.
    + rewrite (Hothers z); [done | by left | done].
Qed.

(** X3: in a manager reached by creating windows and handling events,
    [getName] gives back the name a registered window is stored under;
    except for the empty name, which [.filter((e) => !!e)] drops, so that
    a window stored under [""] has no name for [getName]. *)
Theorem getName_registered (m : t) (name : string) (wd : IWindowData) :
  reachable m → WindowsList m !! name = Some wd →
  getName m (window wd)
  = Normal (Returned (if decide (name = "") then None else Some name)).
Proof.
  intros Hreach Hwd. apply reachable_ids in Hreach as [_ Hdistinct].
  unfold getName, getName_body, Object_entries.
  rewrite (filter_fmap_only (name_if_same (window wd)) truthy _ (name, wd)).
  - unfold name_if_same. cbn. rewrite Z.eqb_refl. cbn.
    case_decide as Hname; [by subst |].
    destruct (String.eqb_spec name ""); [done | by cbn].
  - apply NoDup_map_to_list.
  - by apply elem_of_map_to_list.
  - intros [n wd'] Hin Hne. apply elem_of_map_to_list in Hin.
    unfold name_if_same. cbn. destruct (Z.eqb_spec (Electron.id (window wd'))
      (Electron.id (window wd))) as [Hid|]; [| done].
    assert (n = name) by by eapply Hdistinct. subst n.
    rewrite Hwd in Hin. by simplify_eq.
Qed.

(** X4: for a window whose id no registered window has, such as one not
    made by the manager, [getName] returns [null]. *)
Theorem getName_unknown (m : t) (w : BrowserWindow) :
  (∀ name wd, WindowsList m !! name = Some wd → Electron.id (window wd) ≠ Electron.id w) →
  getName m w = Normal (Returned None).
Proof.
  intros Hunknown. unfold getName, getName_body, Object_entries.
  rewrite filter_fmap_none; [done |].
  intros [n wd] Hin%elem_of_map_to_list. unfold name_if_same. cbn.
  destruct (Z.eqb_spec (Electron.id (window wd)) (Electron.id w)); [| done].
  by destruct (Hunknown n wd).
Qed.

Lemma handle_frame (m : t) (evs : list (Electron.Emitter * Electron.Event)) :
  WindowsList (handle m evs) = WindowsList m ∧ nextId (handle m evs) = nextId m.
Proof.
  revert m. induction evs as [|[e ev] evs IH]; intros m; [done |].
  change (handle m ((e, ev) :: evs)) with (handle (emit e ev m).1 evs).
  destruct (IH (emit e ev m).1) as [-> ->].
  by destruct (emit_frame e ev m) as [-> ->].
Qed.

(** X5: no event takes a window out of the registry or changes its entry:
    whatever the host reports, a close included, [get] and [getName] answer
    afterwards as they did before. *)
Theorem events_keep_registry (m : t) (evs : list (Electron.Emitter * Electron.Event)) :
  WindowsList (handle m evs) = WindowsList m
  ∧ (∀ arg, get (handle m evs) arg = get m arg)
  ∧ (∀ w, getName (handle m evs) w = getName m w).
Proof.
  destruct (handle_frame m evs) as [Hsame _].
  split_and!; [done | |]; intros ?; unfold get, get_body, getName, getName_body;
    by rewrite Hsame.
Qed.

Lemma kept_refl (c : ClosePromise) : kept c c.
Proof. by split. Qed.

Lemma kept_trans (c1 c2 c3 : ClosePromise) : kept c1 c2 → kept c2 c3 → kept c1 c3.
Proof. intros [? ?] [? ?]. split; auto. Qed.

Lemma alter_kept (f : ClosePromise → ClosePromise) (ps : list ClosePromise)
    (q p : nat) (c : ClosePromise) :
  (∀ c, kept c (f c)) → ps !! p = Some c →
  ∃ c', alter f q ps !! p = Some c' ∧ kept c c'.
Proof.
  intros Hf Hp. rewrite list_lookup_alter. case_decide as Hq.
  - subst q. rewrite Hp. cbn. eauto.
  - exists c. split; [done | apply kept_refl].
Qed.

Lemma settle_kept (v : value) (c : ClosePromise) : kept c (settle v c).
Proof.
  split; [done |]. intros u Hu. unfold settle. cbn. by rewrite Hu.
Qed.

Lemma flag_kept (c : ClosePromise) :
  kept c {| closeWithIPC := true; state := state c |}.
Proof. by split. Qed.

Lemma keeps_perform p c es (m : t) : keeps p c m → keeps p c (perform es m).
Proof. done. Qed.

Lemma keeps_alter p c q (f : ClosePromise → ClosePromise) (m : t) :
  (∀ c, kept c (f c)) → keeps p c m → keeps p c (set_promises (alter f q) m).
Proof.
  intros Hf (c1 & Hc1 & Hkept). destruct (alter_kept f (promises m) q p c1 Hf Hc1)
    as (c2 & Hc2 & Hkept2).
  exists c2. split; [done | by eapply kept_trans].
Qed.

Lemma keeps_resolve p c q v (m : t) : keeps p c m → keeps p c (resolve q v m).
Proof. intros ?. apply keeps_perform, keeps_alter; [apply settle_kept | done]. Qed.

Lemma keeps_flag p c q (m : t) : keeps p c m → keeps p c (set_closeWithIPC q true m).
Proof. intros ?. apply keeps_alter; [apply flag_kept | done]. Qed.

Lemma run_listener_keeps (l : Listener) (ev : Electron.Event) (m : t) (p : nat)
    (c : ClosePromise) :
  keeps p c m → keeps p c (run_listener l ev m).1.
Proof.
  intros Hm.
  destruct l, ev; cbn;
    unfold run_on_ipc_message, run_on_ipc_close, run_on_close, windowIPCHandler;
    repeat (case_match; cbn [fst snd]; simplify_eq);
    repeat first [ done | apply keeps_perform | apply keeps_resolve | apply keeps_flag ].
Qed.

Lemma run_listeners_keeps e ev (rs : list Registration) (m : t) (p : nat)
    (c : ClosePromise) :
  keeps p c m → keeps p c (run_listeners e ev rs m).1.
Proof.
  revert m. induction rs as [|r rs IH]; intros m Hm; [done |]. cbn.
  set (m0 := if once r then set_listeners (remove_once e ev) m else m).
  assert (Hm0 : keeps p c m0) by (unfold m0; by destruct (once r)).
  pose proof (run_listener_keeps (listener r) ev m0 p c Hm0) as Hm1.
  destruct (run_listener (listener r) ev m0) as [m1 [err|]]; [done |].
  by apply IH.
Qed.

(** X6: what a close promise has, it keeps: once it is fulfilled no event
    changes its value (a later [resolve] is without effect), and once its
    [closeWithIPC] is set no event clears it. *)
Theorem events_keep_promise (m : t) (evs : list (Electron.Emitter * Electron.Event))
    (p : nat) (c : ClosePromise) :
  promises m !! p = Some c →
  ∃ c', promises (handle m evs) !! p = Some c'
        ∧ (closeWithIPC c = true → closeWithIPC c' = true)
        ∧ (∀ v, state c = Fulfilled v → state c' = Fulfilled v).
Proof.
  intros Hp.
  assert (Hm : keeps p c m) by (exists c; split; [done | apply kept_refl]).
  clear Hp. revert m Hm. induction evs as [|[e ev] evs IH]; intros m Hm.
  - destruct Hm as (c' & ? & ? & ?). by exists c'.
  - change (handle m ((e, ev) :: evs)) with (handle (emit e ev m).1 evs).
    apply IH. by apply run_listeners_keeps.
Qed.

(** *** One window's events and another window's promise *)

Lemma run_listener_untouched (l : Listener) (ev : Electron.Event) (m : t) (p : nat) :
  promise_of l ≠ Some p →
  promises (run_listener l ev m).1 !! p = promises m !! p.
Proof.
  intros Hother.
  assert (Hne : ∀ q, promise_of l = Some q → q ≠ p) by (intros q ? ->; done).
  destruct l, ev; cbn in *;
    unfold run_on_ipc_message, run_on_ipc_close, run_on_close, windowIPCHandler;
    repeat (case_match; cbn [fst snd]; simplify_eq); try done;
    cbn; rewrite ?list_lookup_alter_ne by (by apply Hne); done.
Qed.

Lemma run_listener_length (l : Listener) (ev : Electron.Event) (m : t) :
  length (promises (run_listener l ev m).1) = length (promises m).
Proof.
  destruct l, ev; cbn;
    unfold run_on_ipc_message, run_on_ipc_close, run_on_close, windowIPCHandler;
    repeat (case_match; cbn [fst snd]; simplify_eq); try done;
    cbn; by rewrite ?length_alter.
Qed.

Lemma run_listeners_untouched e ev (rs : list Registration) (m : t) (p : nat) :
  Forall (λ r, promise_of (listener r) ≠ Some p) rs →
  promises (run_listeners e ev rs m).1 !! p = promises m !! p.
Proof.
  revert m. induction rs as [|r rs IH]; intros m Hrs; [done |]. cbn.
  apply Forall_cons in Hrs as [Hr Hrs].
  set (m0 := if once r then set_listeners (remove_once e ev) m else m).
  assert (Hm0 : promises m0 = promises m) by (unfold m0; by destruct (once r)).
  pose proof (run_listener_untouched (listener r) ev m0 p Hr) as Hm1.
  destruct (run_listener (listener r) ev m0) as [m1 [err|]]; cbn in *.
  - by rewrite Hm1, Hm0.
  - by rewrite IH, Hm1, Hm0.
Qed.

Lemma run_listeners_length e ev (rs : list Registration) (m : t) :
  length (promises (run_listeners e ev rs m).1) = length (promises m).
Proof.
  revert m. induction rs as [|r rs IH]; intros m; [done |]. cbn.
  set (m0 := if once r then set_listeners (remove_once e ev) m else m).
  assert (Hm0 : promises m0 = promises m) by (unfold m0; by destruct (once r)).
  pose proof (run_listener_length (listener r) ev m0) as Hm1.
  destruct (run_listener (listener r) ev m0) as [m1 [err|]]; cbn in *.
  - by rewrite Hm1, Hm0.
  - by rewrite IH, Hm1, Hm0.
Qed.

Lemma elem_of_sublist_of {A : Type} (k l : list A) (x : A) :
  k `sublist_of` l → x ∈ k → x ∈ l.
Proof.
  induction 1 as [|y k l _ IH|y k l _ IH]; [done | |].
  - intros [->|?]%elem_of_cons; [by left | right; auto].
  - intros ?. right. auto.
Qed.

Lemma emit_untouched (S : Z → Prop) e ev (m : t) (p : nat) :
  silent_for p S m → S (emitter_id e) →
  promises (emit e ev m).1 !! p = promises m !! p.
Proof.
  intros Hsilent He. unfold emit. apply run_listeners_untouched.
  apply Forall_forall. intros r [[Hr _] Hin]%list_elem_of_filter.
  apply Hsilent; [done | by rewrite Hr].
Qed.

Lemma emit_silent (S : Z → Prop) e ev (m : t) (p : nat) :
  silent_for p S m → silent_for p S (emit e ev m).1.
Proof.
  intros Hsilent r Hr. apply Hsilent.
  destruct (run_listeners_frame e ev (filter (listens e ev) (listeners m)) m) as (Hl & _).
  eapply elem_of_sublist_of; [exact Hl | exact Hr].
Qed.

Lemma handle_untouched (S : Z → Prop) (evs : list (Electron.Emitter * Electron.Event))
    (m : t) (p : nat) :
  silent_for p S m → Forall (λ ev, S (emitter_id ev.1)) evs →
  promises (handle m evs) !! p = promises m !! p.
Proof.
  revert m. induction evs as [|[e ev] evs IH]; intros m Hsilent Hevs; [done |].
  apply Forall_cons in Hevs as [He Hevs].
  change (handle m ((e, ev) :: evs)) with (handle (emit e ev m).1 evs).
  rewrite IH; [by eapply emit_untouched | by apply emit_silent | done].
Qed.

Lemma reachable_refs_below (m : t) : reachable m → refs_below m.
Proof.
  induction 1 as [|m options _ IH|m e ev _ IH].
  - intros r p Hr. by apply elem_of_nil in Hr.
  - rewrite createBaseWindow_unfold. cbn [fst]. intros r p. cbn [listeners promises].
    rewrite elem_of_app, length_app. intros [Hold|Hnew] Hp.
    + specialize (IH r p Hold Hp). lia.
    + unfold registered in Hnew.
      destruct (IWindowOptions.onclose options);
        repeat (apply elem_of_cons in Hnew as [->|Hnew]); cbn in Hp; simplify_eq;
        try (by apply elem_of_nil in Hnew); cbn; lia.
  - intros r p Hr Hp. unfold emit in *.
    rewrite run_listeners_length.
    destruct (run_listeners_frame e ev (filter (listens e ev) (listeners m)) m) as (Hl & _).
    eapply IH; [| done]. eapply elem_of_sublist_of; [exact Hl | exact Hr].
Qed.

(** X7: windows do not settle each other's promises.  After a window is
    made with a close callback in a reachable manager, its promise stays
    pending through any events of the other windows, and the events of the
    new window leave every promise made before as it is. *)
Theorem close_promises_are_separate (m : t) (options : IWindowOptions.t) (f : Callback)
    (evs : list (Electron.Emitter * Electron.Event)) :
  reachable m → IWindowOptions.onclose options = Some f →
  (Forall (λ ev, emitter_id ev.1 ≠ nextId m) evs →
   promises (handle (createBaseWindow m options).1 evs) !! length (promises m)
   = Some {| closeWithIPC := false; state := Pending |})
  ∧ (Forall (λ ev, emitter_id ev.1 = nextId m) evs →
     ∀ q c, promises m !! q = Some c →
            promises (handle (createBaseWindow m options).1 evs) !! q = Some c).
Proof.
  intros Hreach Hclose.
  pose proof (reachable_wf m Hreach) as Hwf.
  pose proof (reachable_refs_below m Hreach) as Hrefs.
  destruct (created_promise m options f Hclose) as [_ Hp].
  split.
  - intros Hevs. rewrite (handle_untouched (λ i, i ≠ nextId m)); [done | | done].
    intros r. rewrite createBaseWindow_unfold. cbn [fst listeners].
    rewrite elem_of_app. intros [Hold|Hnew] Hid.
    + intros Hr. specialize (Hrefs r _ Hold Hr). lia.
    + unfold registered in Hnew. rewrite Hclose in Hnew.
      repeat (apply elem_of_cons in Hnew as [->|Hnew]); cbn in *;
        try first [ done | by destruct Hid | by apply elem_of_nil in Hnew ].
  - intros Hevs q c Hq.
    rewrite (handle_untouched (λ i, i = nextId m)); [| | done].
    + rewrite createBaseWindow_unfold. cbn [fst promises].
      by rewrite lookup_app_l by (by eapply lookup_lt_Some).
    + intros r. rewrite createBaseWindow_unfold. cbn [fst listeners].
      rewrite elem_of_app. intros [Hold|Hnew] Hid.
      * unfold wf in Hwf. rewrite Forall_forall in Hwf. specialize (Hwf r Hold). lia.
      * apply lookup_lt_Some in Hq. unfold registered in Hnew. rewrite Hclose in Hnew.
        repeat (apply elem_of_cons in Hnew as [->|Hnew]); cbn in *;
          try first [ done | intros [= Heq]; lia | by apply elem_of_nil in Hnew ].
Qed.

(** *** Resizing *)

Lemma clamped_upper (min : option Z) (hi v : Z) : clamped min (Some hi) v ≤ hi.
Proof. unfold clamped, lowered. case_match; lia. Qed.

Lemma clamped_lower (lo : Z) (max : option Z) (v : Z) :
  (∀ hi, max = Some hi → lo ≤ hi) → lo ≤ clamped (Some lo) max v.
Proof.
  intros Hmax. unfold clamped, lowered, raised. destruct max as [hi|].
  - specialize (Hmax hi eq_refl). repeat case_match; lia.
  - case_match; lia.
Qed.

Lemma clamped_within (min max : option Z) (v : Z) :
  (∀ lo, min = Some lo → lo ≤ v) → (∀ hi, max = Some hi → v ≤ hi) →
  clamped min max v = v.
Proof.
  intros Hmin Hmax. unfold clamped, lowered, raised.
  destruct min as [lo|], max as [hi|];
    try specialize (Hmin _ eq_refl); try specialize (Hmax _ eq_refl);
    repeat case_match; lia.
Qed.

Lemma clamped_idempotent (min max : option Z) (v : Z) :
  clamped min max (clamped min max v) = clamped min max v.
Proof.
  unfold clamped, lowered, raised. destruct min as [lo|], max as [hi|];
    repeat case_match; lia.
Qed.

(** X8: the size the router applies for a numeric [window-resize] never
    exceeds [maxSize] (also when [minSize] is larger: the upper bound is
    applied last), is at least [minSize] in every dimension in which
    [minSize] does not exceed [maxSize], and is the requested size when
    that lies within the bounds; asking for the applied size once more
    applies the same size. *)
Theorem window_resize_within_bounds (before : list Effect.t) (wd : IWindowData)
    (width height : Z) :
  ∃ w h : Z,
    windowIPCHandler before (Some wd) "window-resize"
      [VNumber (Num width); VNumber (Num height)]
    = ([Effect.setSize (window wd) (VNumber (Num w)) (VNumber (Num h))],
       Normal (Returned ()))
    ∧ (∀ max, IWindowOptions.maxSize (options wd) = Some max →
         w ≤ Size.width max ∧ h ≤ Size.height max)
    ∧ (∀ min, IWindowOptions.minSize (options wd) = Some min →
         ((∀ max, IWindowOptions.maxSize (options wd) = Some max →
                  Size.width min ≤ Size.width max) → Size.width min ≤ w)
         ∧ ((∀ max, IWindowOptions.maxSize (options wd) = Some max →
                    Size.height min ≤ Size.height max) → Size.height min ≤ h))
    ∧ ((∀ min, IWindowOptions.minSize (options wd) = Some min →
               Size.width min ≤ width ∧ Size.height min ≤ height) →
       (∀ max, IWindowOptions.maxSize (options wd) = Some max →
               width ≤ Size.width max ∧ height ≤ Size.height max) →
       w = width ∧ h = height)
    ∧ windowIPCHandler before (Some wd) "window-resize" [VNumber (Num w); VNumber (Num h)]
      = ([Effect.setSize (window wd) (VNumber (Num w)) (VNumber (Num h))],
         Normal (Returned ())).
Proof.
  eexists _, _. split; [by rewrite window_resize_runs_resize, resize_numeric |].
  split_and!; [| | | by rewrite window_resize_runs_resize, resize_numeric,
                               !clamped_idempotent].
  - intros max ->. split; apply clamped_upper.
  - intros min ->. split; intros Hle; apply clamped_lower;
      intros hi Hhi; destruct (IWindowOptions.maxSize (options wd)) as [max|];
      cbn in Hhi; simplify_eq; by apply Hle.
  - intros Hmin Hmax. split; apply clamped_within.
    all: destruct (IWindowOptions.minSize (options wd)) as [min|];
      destruct (IWindowOptions.maxSize (options wd)) as [max|];
      intros ? Hb; cbn in Hb; simplify_eq;
      first [ by apply (Hmin _ eq_refl) | by apply (Hmax _ eq_refl) ].
Qed.

(** *** The arguments of a window *)

Ltac pick_listeners :=
  repeat first
    [ rewrite filter_nil
    | rewrite filter_cons_True by (split; reflexivity)
    | rewrite filter_cons_False by (intros [? ?]; discriminate) ].

Lemma remove_once_foreign e ev (ls ls' : list Registration) :
  Forall (λ r, emitter_id (emitter r) < emitter_id e) ls →
  remove_once e ev (ls ++ ls') = ls ++ remove_once e ev ls'.
Proof.
  induction 1 as [|r ls Hr _ IH]; [done |]. cbn.
  rewrite decide_False; [by rewrite IH |].
  intros [[Heq _] _]. rewrite Heq in Hr. lia.
Qed.

(** X9: the arguments of a window are delivered once.  At the first
    [dom-ready] of a window made in a reachable manager its [args] are sent
    on [window-arguments] if they pass the test [if (options.args)]: an
    absent [args] and one that is falsy ([null], [false], [0], the empty
    string) is not sent; at a second [dom-ready] nothing is sent. *)
Theorem window_arguments_sent_once (m : t) (options : IWindowOptions.t) :
  reachable m →
  let w := {| Electron.id := nextId m |} in
  let m1 := (createBaseWindow m options).1 in
  let first := emit (Electron.WebContents (nextId m)) Electron.dom_ready m1 in
  let second := emit (Electron.WebContents (nextId m)) Electron.dom_ready first.1 in
  first.2 = None
  ∧ log first.1 = log m1 ++ match IWindowOptions.args options with
                            | Some a =>
                                if ToBoolean a then [Effect.send w "window-arguments" a]
                                else []
                            | None => []
                            end
  ∧ second = (first.1, None).
Proof.
  intros Hwf%reachable_wf w m1 first second.
  assert (Hfirst : first
    = (set_listeners (λ _, listeners m ++
         remove_once (Electron.WebContents (nextId m)) Electron.dom_ready
           (registered w options (length (promises m))))
         (perform match IWindowOptions.args options with
                  | Some a =>
                      if ToBoolean a then [Effect.send w "window-arguments" a] else []
                  | None => []
                  end m1), None)).
  { unfold first, emit, m1. rewrite createBaseWindow_unfold. cbn [fst listeners].
    rewrite filter_app, (filter_foreign _ _ (listeners m)) by exact Hwf.
    unfold registered.
    destruct (IWindowOptions.onclose options); cbn [app Electron.id]; pick_listeners;
      cbn [app run_listeners once listener run_listener];
      unfold set_listeners; cbn [listeners];
      rewrite (remove_once_foreign _ _ (listeners m)) by exact Hwf;
      destruct (IWindowOptions.args options) as [a|]; try destruct (ToBoolean a);
      cbn; rewrite ?app_nil_r; reflexivity. }
  rewrite Hfirst. cbn [fst snd]. split_and!; [done | done |].
  unfold second. rewrite Hfirst. cbn [fst]. unfold emit. cbn [listeners set_listeners perform].
  rewrite filter_app, (filter_foreign _ _ (listeners m)) by exact Hwf.
  unfold registered. cbn [app remove_once Electron.id].
  rewrite decide_False by (intros [[? _] _]; discriminate).
  rewrite decide_True by (split; [split |]; reflexivity).
  by destruct (IWindowOptions.onclose options); cbn [app]; pick_listeners.
Qed.

(** *** The windows the manager opens *)

Lemma adds_refl (m : t) : adds m m.
Proof. exists []. by rewrite app_nil_r. Qed.

Lemma adds_trans (m1 m2 m3 : t) : adds m1 m2 → adds m2 m3 → adds m1 m3.
Proof.
  intros (es & Hes & ?) (es' & Hes' & ?). exists (es ++ es').
  rewrite Hes', Hes, app_assoc. split; [done | by apply Forall_app].
Qed.

Lemma adds_perform (es : list Effect.t) (m : t) :
  Forall (λ x, ¬ opens x) es → adds m (perform es m).
Proof. intros ?. by exists es. Qed.

Lemma adds_set_promises f (m : t) : adds m (set_promises f m).
Proof. exists []. cbn. by rewrite app_nil_r. Qed.

Lemma router_opens_nothing (before : list Effect.t) (w : option IWindowData)
    (channel : string) (args : list value) :
  Forall (λ x, ¬ opens x) (windowIPCHandler before w channel args).1.
Proof.
  destruct (includes (Object_keys (map before w args)) channel) eqn:Hvalid.
  - apply valid_channels in Hvalid. destruct Hvalid as [Hc|[Hc|Hc]]; subst channel;
      destruct w as [wd|]; try (by constructor).
    + rewrite window_resize_runs_resize. unfold resize. cbn [fst].
      repeat case_match; repeat constructor; auto.
    + repeat constructor; auto.
    + repeat constructor; auto.
  - rewrite invalid_channel_ignored by done. constructor.
Qed.

Ltac adds_steps :=
  unfold resolve, set_closeWithIPC;
  repeat first
    [ apply adds_refl
    | eapply adds_trans; [| apply adds_perform; repeat constructor; by auto]
    | eapply adds_trans; [| apply adds_set_promises] ].

Lemma run_listener_adds (l : Listener) (ev : Electron.Event) (m : t) :
  adds m (run_listener l ev m).1.
Proof.
  destruct l, ev; cbn [run_listener];
    unfold run_on_ipc_message, run_on_ipc_close, run_on_close;
    repeat (case_match; cbn [fst snd]; simplify_eq); try by adds_steps.
  all: match goal with
       | Hr : windowIPCHandler ?b ?w ?c ?a = (?es, _) |- _ =>
           apply adds_perform;
           change es with (es, @Normal (caught unit) (Returned ())).1;
           pose proof (router_opens_nothing b w c a) as Hno; by rewrite Hr in Hno
       end.
Qed.

Lemma run_listeners_adds e ev (rs : list Registration) (m : t) :
  adds m (run_listeners e ev rs m).1.
Proof.
  revert m. induction rs as [|r rs IH]; intros m; [apply adds_refl |]. cbn.
  set (m0 := if once r then set_listeners (remove_once e ev) m else m).
  assert (Hm0 : adds m m0).
  { unfold m0. destruct (once r); [| apply adds_refl]. exists []. cbn. by rewrite app_nil_r. }
  pose proof (run_listener_adds (listener r) ev m0) as Hm1.
  destruct (run_listener (listener r) ev m0) as [m1 [err|]]; cbn in *.
  - by eapply adds_trans.
  - eapply adds_trans; [| apply IH]. by eapply adds_trans.
Qed.

(** X10: every window the manager has opened, in any state it can reach,
    was opened with Node integration off, context isolation and web
    security on, insecure content refused, the preload script attached, and
    hidden ([show: false]); handling events opens no window. *)
Theorem windows_are_hardened (m : t) (w : BrowserWindow)
    (o : Electron.BrowserWindowConstructorOptions) :
  reachable m → Effect.new_BrowserWindow w o ∈ log m → hardened o.
Proof.
  intros Hreach. revert w o.
  induction Hreach as [|m options _ IH|m e ev _ IH]; intros w o.
  - by intros ?%elem_of_nil.
  - rewrite createBaseWindow_unfold. cbn [fst log].
    rewrite elem_of_app. intros [Hold|Hnew]; [by eapply IH |].
    repeat (apply elem_of_cons in Hnew as [Hnew|Hnew]); simplify_eq.
    + by repeat split.
    + by apply elem_of_nil in Hnew.
  - destruct (run_listeners_adds e ev (filter (listens e ev) (listeners m)) m)
      as (es & Hes & Hno).
    unfold emit. rewrite Hes, elem_of_app. intros [Hold|Hnew]; [by eapply IH |].
    rewrite Forall_forall in Hno. by destruct (Hno _ Hnew).
Qed.
End RegistryFacts.

(** ** More of the localization loader *)

Section LoaderMore.
Context `{Shared} `{Localization.Node}.

Import Localization.

(** X11: when the resource directory cannot be listed, [initLocalization]
    is rejected with the error of [readdir] and the translation engine is
    left as it was. *)
Theorem unreadable_directory_aborts_init (resourcesPath : string) (language : option string)
    (i : i18next) (e : error) :
  readdir (path_resolve (path_resolve resourcesPath)) = Throw e →
  getTranslationResourcesFromDir resourcesPath = Throw e
  ∧ initLocalization resourcesPath language i = (i, Throw e).
Proof.
  intros Hreaddir. unfold initLocalization, getTranslationResourcesFromDir.
  by rewrite Hreaddir.
Qed.

Lemma first_rejection_all_fulfilled {A : Type} (ps : list (completion A)) (order : list nat) :
  Forall (λ p, ∃ a, p = Normal a) ps → first_rejection ps order = None.
Proof.
  intros Hall. induction order as [|i order IH]; [done |]. cbn.
  destruct (ps !! i) as [p|] eqn:Hi; [| done].
  rewrite Forall_forall in Hall. destruct (Hall p) as [a ->]; [| done].
  by eapply list_elem_of_lookup_2.
Qed.

(** [Promise.all] over promises that are all fulfilled: the values, in the
    order of the array, whatever the order of settlement. *)
Lemma Promise_all_fulfilled {A B : Type} (order : list nat) (f : A → completion B)
    (g : A → B) (l : list A) :
  (∀ a, a ∈ l → f a = Normal (g a)) → Promise_all order (f <$> l) = Normal (g <$> l).
Proof.
  intros Hall. unfold Promise_all. rewrite first_rejection_all_fulfilled.
  - f_equal. induction l as [|a l IH]; [done |]. cbn.
    rewrite (Hall a) by left. cbn. f_equal. apply IH. intros b Hb. apply Hall. by right.
  - apply Forall_forall. intros p (a & -> & Ha)%list_elem_of_fmap. eauto.
Qed.

Lemma foldl_insert_lookup (l : list (string * value)) (acc : gmap string value)
    (k : string) (v : value) :
  foldl (λ resources data, <[data.1 := data.2]> resources) acc l !! k = Some v →
  (k, v) ∈ l ∨ acc !! k = Some v.
Proof.
  revert acc. induction l as [|[k' v'] l IH]; intros acc; cbn; [by right |].
  intros [Hin|Hacc]%IH; [left; by right |].
  rewrite lookup_insert in Hacc. case_decide; simplify_eq; [left; by left | by right].
Qed.

Lemma foldl_insert_is_Some (l : list (string * value)) (acc : gmap string value)
    (k : string) :
  (k ∈ l.*1 ∨ is_Some (acc !! k)) →
  is_Some (foldl (λ resources data, <[data.1 := data.2]> resources) acc l !! k).
Proof.
  revert acc. induction l as [|[k' v'] l IH]; intros acc; cbn.
  - intros [?%elem_of_nil|?]; done.
  - intros [Hin|Hacc]; apply IH.
    + apply elem_of_cons in Hin as [->|?]; [right | by left].
      rewrite lookup_insert_eq. eauto.
    + right. rewrite lookup_insert. case_decide; eauto.
Qed.

(** X12: when the directory can be listed and every resource file in it
    can be read and parsed, [initLocalization] is fulfilled and the engine
    is initialized with a table that has an entry for the stem of every
    resource file and only entries read from resource files, and with the
    fallback language ["dev"] in development and ["en"] otherwise; a
    non-empty [language] is made the active one. *)
Theorem init_loads_every_resource (resourcesPath : string) (lang : option string)
    (i : i18next) (dirents : list Dirent) (data : Dirent → value) :
  readdir (path_resolve (path_resolve resourcesPath)) = Normal dirents →
  (∀ d, d ∈ dirents → resource_file d →
        ∃ text, readFile (path_join (path_resolve resourcesPath) (name d)) = Normal text
                ∧ JSON_parse text = Normal (data d)) →
  ∃ (res : gmap string value) (i' : i18next),
    initLocalization resourcesPath lang i = (i', Normal ())
    ∧ initialized i'
      = Some {| resources := res; fallbackLng := if isDev then "dev" else "en" |}
    ∧ (∀ l, lang = Some l → l ≠ "" → language i' = Some l)
    ∧ (∀ d, d ∈ dirents → resource_file d →
         is_Some (res !! path_basename (path_join (path_resolve resourcesPath) (name d))
                           ".json"))
    ∧ (∀ k v, res !! k = Some v →
         ∃ d, d ∈ dirents ∧ resource_file d
              ∧ path_basename (path_join (path_resolve resourcesPath) (name d)) ".json" = k
              ∧ v = data d).
Proof.
  intros Hreaddir Hfiles.
  set (dir := path_resolve resourcesPath) in *.
  set (files := filter resource_file dirents).
  set (entry := λ d : Dirent, (path_basename (path_join dir (name d)) ".json", data d)).
  assert (Hall : Promise_all settling (read_translation <$> (path_join dir <$> (name <$> files)))
                 = Normal (entry <$> files)).
  { rewrite <- !list_fmap_compose. apply Promise_all_fulfilled.
    intros d [Hfile Hd]%list_elem_of_filter.
    destruct (Hfiles d Hd Hfile) as (text & Hread & Hparse).
    cbn. unfold read_translation. rewrite Hread. cbn. by rewrite Hparse. }
  assert (Hres : getTranslationResourcesFromDir resourcesPath
                 = Normal (foldl (λ resources d, <[d.1 := d.2]> resources) ∅ (entry <$> files))).
  { unfold getTranslationResourcesFromDir.
    fold dir. rewrite Hreaddir. cbn [mbind completion_bind].
    change (Promise_all settling _) with
      (Promise_all settling (read_translation <$> (path_join dir <$> (name <$> files)))).
    by rewrite Hall. }
  exists (foldl (λ resources d, <[d.1 := d.2]> resources) ∅ (entry <$> files)).
  exists {| initialized :=
              Some {| resources := foldl (λ resources d, <[d.1 := d.2]> resources) ∅
                                     (entry <$> files);
                      fallbackLng := if isDev then "dev" else "en" |};
            language := match lang with
                        | Some l => if String.eqb l "" then language i else Some l
                        | None => language i
                        end |}.
  split_and!.
  - unfold initLocalization. rewrite Hres.
    destruct lang as [l|]; [| done]. cbn. by destruct (String.eqb l "").
  - done.
  - intros l -> Hl. cbn. by destruct (String.eqb_spec l "").
  - intros d Hd Hfile. apply foldl_insert_is_Some. left.
    rewrite <- list_fmap_compose. apply list_elem_of_fmap. exists d.
    split; [done | by apply list_elem_of_filter].
  - intros k v [Hin|Hempty]%foldl_insert_lookup; [| by rewrite lookup_empty in Hempty].
    apply list_elem_of_fmap in Hin as (d & [= -> ->] & [Hfile Hd]%list_elem_of_filter).
    by exists d.
Qed.
End LoaderMore.

(** ** More of the logging configurator *)

Section ConfiguratorMore.
Context `{Shared} `{Loggers.LogPath}.

Import Loggers.

Lemma run_init_configured (history : list Call) :
  call_init ∈ history → configured (run history) = configured (init loaded).
Proof.
  induction history as [|c history IH] using rev_ind; [by intros ?%elem_of_nil |].
  rewrite run_snoc, elem_of_app, list_elem_of_singleton.
  destruct c as [|category]; cbn; [done |].
  intros [?|?]; [auto | done].
Qed.

(** X13: once [init()] has run, the logger [get] returns for a category
    carries a configuration in which that category is declared with one
    appender of its own, at level [debug] in development and [warn]
    otherwise, and that appender is declared and writes to the log file of
    the category, rotating at 10 MB with 3 compressed backups; every
    appender a category names is declared, and there is a [default]
    category. *)
Theorem configured_logger (history : list Call) (c : TLoggerCategory) :
  call_init ∈ history →
  ∃ (logger : Logger) (cfg : Configuration),
    get (run history) c = Normal logger
    ∧ category logger = category_name c
    ∧ configuration logger = Some cfg
    ∧ (category_name c,
       {| appenders := [category_name c]; level := if isDev then "debug" else "warn" |})
      ∈ categories cfg
    ∧ (category_name c,
       {| type := "file"; filename := log_file c; layout := LAYOUT; keepFileExt := true;
          maxLogSize := 10 * 1024 * 1024; backups := 3; compress := true |})
      ∈ config_appenders cfg
    ∧ (∀ name cat a, (name, cat) ∈ categories cfg → a ∈ appenders cat →
                     a ∈ (config_appenders cfg).*1)
    ∧ "default" ∈ (categories cfg).*1.
Proof.
  intros Hinit.
  pose proof (proj2 (initialized_run history) Hinit) as Hflag.
  pose proof (run_init_configured history Hinit) as Hcfg.
  eexists _, _. split_and!.
  - unfold get. rewrite Hflag. reflexivity.
  - reflexivity.
  - cbn. rewrite Hcfg. reflexivity.
  - destruct c; cbn; set_solver.
  - destruct c; cbn; set_solver.
  - cbn. intros name cat a Hcat Ha.
    repeat (apply elem_of_cons in Hcat as [Hcat|Hcat]); simplify_eq;
      try (by apply elem_of_nil in Hcat);
      cbn in Ha; apply list_elem_of_singleton in Ha as ->; set_solver.
  - cbn. set_solver.
Qed.
End ConfiguratorMore.

(** ** The bridge of the login window *)

Section BridgeFacts.
Context `{Engine} `{Shared} `{LoginPreload.Text}.

Import LoginPreload.



End BridgeFacts.

(** ** The sizes of the message box *)

Section MessageboxFacts.

Import Messagebox.

Lemma MAX_CONTENT_WIDTH_value : MAX_CONTENT_WIDTH = 630.
Proof. reflexivity. Qed.

(** The width kept by the loop over the buttons is that of a row that was
    too wide, if it is not still 0. *)
Lemma buttons_loop_width (bs : list Element) (r : Row) :
  width r = 0 ∨ MAX_CONTENT_WIDTH < width r →
  width (foldl add_button r bs) = 0 ∨ MAX_CONTENT_WIDTH < width (foldl add_button r bs).
Proof.
  revert r. induction bs as [|b bs IH]; intros r Hr; [done |]. cbn [foldl].
  apply IH. unfold add_button.
  destruct (Z.ltb_spec MAX_CONTENT_WIDTH (rowWidth r + scrollWidth b)); cbn; lia.
Qed.

(** X16: the width [getButtonsAreaSize] reports is 0 or the maximal content
    width of 630 pixels, whatever the buttons: the loop records a width only
    for a row wider than the maximum, and the result is capped at the
    maximum. *)
Theorem buttons_area_width (p : Page) :
  Area.width (getButtonsAreaSize p) = 0 ∨ Area.width (getButtonsAreaSize p) = 630.
Proof.
  unfold getButtonsAreaSize. cbn [Area.width].
  destruct (buttons_loop_width (buttons p) {| width := 0; height := 0; rowWidth := 0 |})
    as [Hzero|Hwide]; [by left | |].
  - left. rewrite Hzero. reflexivity.
  - right. rewrite MAX_CONTENT_WIDTH_value in *. lia.
Qed.

Lemma buttons_loop_one_row (bs : list Element) (r : Row) :
  Forall (λ b, 0 ≤ scrollWidth b) bs → 0 ≤ rowWidth r →
  rowWidth r + total_width bs ≤ MAX_CONTENT_WIDTH →
  foldl add_button r bs
  = {| width := width r;
       height := if height r =? 0 then first_height bs else height r;
       rowWidth := rowWidth r + total_width bs |}.
Proof.
  revert r. induction bs as [|b bs IH]; intros r Hbs Hrow Hfit.
  - destruct r as [w h rw]. cbn. unfold total_width, first_height. cbn. f_equal.
    + by destruct (Z.eqb_spec h 0).
    + clear. lia.
  - apply Forall_cons in Hbs as [Hb Hbs]. cbn [foldl].
    assert (Htotal : total_width (b :: bs) = scrollWidth b + total_width bs) by reflexivity.
    assert (0 ≤ total_width bs).
    { clear -Hbs. induction Hbs as [|x l Hx _ IHl]; [done |].
      change (total_width (x :: l)) with (scrollWidth x + total_width l). lia. }
    rewrite Htotal in *. rewrite IH; [| done | |].
    + unfold add_button.
      destruct (Z.ltb_spec MAX_CONTENT_WIDTH (rowWidth r + scrollWidth b)); [lia |].
      cbn [width height rowWidth]. f_equal; [| lia].
      unfold first_height. cbn [fmap list_fmap].
      destruct (Z.eqb_spec (height r) 0) as [Hh|Hh].
      * destruct (Z.eqb_spec (scrollHeight b) 0) as [Hb0|Hb0].
        -- rewrite filter_cons_False by (intros ?; done). done.
        -- by rewrite filter_cons_True.
      * destruct (Z.eqb_spec (height r) 0); done.
    + unfold add_button.
      destruct (Z.ltb_spec MAX_CONTENT_WIDTH (rowWidth r + scrollWidth b)); cbn; lia.
    + unfold add_button.
      destruct (Z.ltb_spec MAX_CONTENT_WIDTH (rowWidth r + scrollWidth b)); cbn; lia.
Qed.

(** X17: buttons that fit in one row (widths not negative, at most 630 in
    all) give an area of width 0 and of the height of one button: the first
    height that is not 0. *)
Theorem buttons_area_one_row (p : Page) :
  Forall (λ b, 0 ≤ scrollWidth b) (buttons p) → total_width (buttons p) ≤ 630 →
  getButtonsAreaSize p = {| Area.height := first_height (buttons p); Area.width := 0 |}.
Proof.
  intros Hbs Hfit. unfold getButtonsAreaSize.
  rewrite buttons_loop_one_row; [done | done | done |].
  cbn. by rewrite MAX_CONTENT_WIDTH_value.
Qed.

Lemma checkboxes_loop (cs : list Element) (a : Area.t) :
  0 ≤ Area.width a →
  let r := foldl add_checkbox a cs in
  Area.height r = Area.height a + total_height cs
  ∧ Area.width a ≤ Area.width r
  ∧ Forall (λ c, scrollWidth c ≤ Area.width r) cs
  ∧ (Area.width r = Area.width a ∨ ∃ c, c ∈ cs ∧ Area.width r = scrollWidth c).
Proof.
  revert a. induction cs as [|c cs IH]; intros a Ha; cbn zeta.
  - cbn. unfold total_height. cbn. split_and!; [lia | lia | constructor | by left].
  - cbn [foldl].
    destruct (IH (add_checkbox a c)) as (Hh & Hw & Hall & Hfrom); [cbn; lia |].
    cbn zeta in *. cbn [add_checkbox Area.width Area.height] in *.
    change (total_height (c :: cs)) with (scrollHeight c + total_height cs).
    split_and!; [lia | lia | constructor; [lia | done] |].
    destruct Hfrom as [Heq|(c' & Hc' & Heq)].
    + rewrite Heq. destruct (Z.max_spec (scrollWidth c) (Area.width a)) as [[_ ->]|[_ ->]];
        [by left | right; exists c; split; [by left | done]].
    + right. exists c'. split; [by right | done].
Qed.

(** X18: the area [getCheckboxesAreaSize] reports is as high as all the
    checkboxes together and as wide as the widest of them, but not wider
    than 630 pixels and not narrower than 0; without checkboxes it is
    0 by 0. *)
Theorem checkboxes_area (p : Page) :
  let a := getCheckboxesAreaSize p in
  Area.height a = total_height (checkboxes p)
  ∧ 0 ≤ Area.width a ≤ 630
  ∧ Forall (λ c, Z.min (scrollWidth c) 630 ≤ Area.width a) (checkboxes p)
  ∧ (Area.width a = 0 ∨ Area.width a = 630
     ∨ ∃ c, c ∈ checkboxes p ∧ Area.width a = scrollWidth c)
  ∧ (checkboxes p = [] → a = {| Area.width := 0; Area.height := 0 |}).
Proof.
  unfold getCheckboxesAreaSize. cbn zeta. cbn [Area.width Area.height].
  destruct (checkboxes_loop (checkboxes p) {| Area.width := 0; Area.height := 0 |})
    as (Hh & Hw & Hall & Hfrom); [done |].
  cbn zeta in *. cbn [Area.width Area.height] in *.
  rewrite MAX_CONTENT_WIDTH_value. split_and!.
  - lia.
  - lia.
  - lia.
  - eapply Forall_impl; [exact Hall |]. cbn. intros c Hc. lia.
  - destruct (Z.min_spec (Area.width (foldl add_checkbox {| Area.width := 0; Area.height := 0 |}
                                        (checkboxes p))) 630) as [[_ Hmin]|[_ Hmin]];
      rewrite Hmin; [| by right; left].
    destruct Hfrom as [?|?]; [by left | by right; right].
  - by intros ->.
Qed.

Lemma ceil_ninth_spec (a : Z) : a ≤ 9 * ceil_ninth a < a + 9.
Proof.
  unfold ceil_ninth.
  pose proof (Z.div_mod (- a) 9 ltac:(done)) as Hdiv.
  pose proof (Z.mod_pos_bound (- a) 9 ltac:(done)) as Hmod.
  lia.
Qed.

(** X19: [fitContent] asks on [window-resize] for the least width of which
    nine tenths hold the header, the rounded container and the two areas,
    and for the sum of the four heights plus 40 pixels of padding. *)
Theorem fitContent_request (p : Page) :
  ∃ realWidth height : Z,
    fitContent p = ("window-resize", [VNumber (Num realWidth); VNumber (Num height)])
    ∧ height = scrollHeight (header p) + scrollHeight (roundedContainer p)
               + Area.height (getButtonsAreaSize p)
               + Area.height (getCheckboxesAreaSize p) + 40
    ∧ 10 * scrollWidth (header p) ≤ 9 * realWidth
    ∧ 10 * scrollWidth (roundedContainer p) ≤ 9 * realWidth
    ∧ 10 * Area.width (getButtonsAreaSize p) ≤ 9 * realWidth
    ∧ 10 * Area.width (getCheckboxesAreaSize p) ≤ 9 * realWidth
    ∧ (9 * (realWidth - 1) < 10 * scrollWidth (header p)
       ∨ 9 * (realWidth - 1) < 10 * scrollWidth (roundedContainer p)
       ∨ 9 * (realWidth - 1) < 10 * Area.width (getButtonsAreaSize p)
       ∨ 9 * (realWidth - 1) < 10 * Area.width (getCheckboxesAreaSize p)).
Proof.
  eexists _, _. split; [reflexivity |].
  set (bw := Area.width (getButtonsAreaSize p)).
  set (cw := Area.width (getCheckboxesAreaSize p)).
  set (partial := Z.max (Z.max (Z.max (scrollWidth (header p))
                                      (scrollWidth (roundedContainer p))) bw) cw).
  pose proof (ceil_ninth_spec (partial * 10)) as Hceil.
  split_and!; [lia | lia | lia | lia | lia | lia].
Qed.
End MessageboxFacts.

(** ** The theorems at work on the example environment *)

Section Examples.

#[local] Existing Instance example_engine.
#[local] Existing Instance example_shared.
#[local] Existing Instance example_node.
#[local] Existing Instance example_LogPath.

Import WindowManager.

Example endsWith_json :
  Localization.endsWith "it.json" ".json" = true
  ∧ Localization.endsWith ".json" ".json" = true
  ∧ Localization.endsWith "json" ".json" = false
  ∧ Localization.endsWith "README.md" ".json" = false.
Proof. by split_and!. Qed.

(** The main window, then a message box: lookups by name and by id. *)
Example get_after_two_windows :
  let m := (createBaseWindow (createBaseWindow empty example_options).1
              example_messagebox).1 in
  get m (VString "main") = Normal (Returned (Some {| Electron.id := 1 |}))
  ∧ get m (VString "messagebox") = Normal (Returned (Some {| Electron.id := 2 |}))
  ∧ get m (VNumber (Num 2)) = Normal (Returned (Some {| Electron.id := 2 |}))
  ∧ get m (VNumber (Num 5)) = Normal (Returned None)
  ∧ get m (VNumber NaN) = Normal (Returned None)
  ∧ get m (VString "ghost") = Normal (Handled VUndefined).
Proof. vm_compute. by split_and!. Qed.

(** The message box asked to become 2000 x 300, then 100 x 2000. *)
Example resize_messagebox :
  let m := (createBaseWindow (createBaseWindow empty example_options).1
              example_messagebox).1 in
  let m1 := (emit (Electron.WebContents 2)
               (Electron.ipc_message "window-resize" [VNumber (Num 2000); VNumber (Num 300)])
               m).1 in
  let m2 := (emit (Electron.WebContents 2)
               (Electron.ipc_message "window-resize" [VNumber (Num 100); VNumber (Num 2000)])
               m1).1 in
  log m2 = log m ++ [Effect.setSize {| Electron.id := 2 |} (VNumber (Num 1600)) (VNumber (Num 300));
                     Effect.setSize {| Electron.id := 2 |} (VNumber (Num 100)) (VNumber (Num 900))].
Proof. vm_compute. reflexivity. Qed.

(** The main window closed by its content with ["saved"], then the native
    close event: one call of the callback, one [resolve]. *)
Example saved_then_native_close :
  let m := (createBaseWindow empty example_options).1 in
  let ipc := emit (Electron.WebContents 1)
               (Electron.ipc_message "window-close" [VArray [VString "saved"]]) m in
  let native := emit (Electron.Window 1) Electron.closing ipc.1 in
  native = (ipc.1, None)
  ∧ log native.1
    = log m ++ [Effect.onclose 7%nat [VString "saved"]; Effect.close {| Electron.id := 1 |};
                Effect.resolve 0%nat (VArray [VString "saved"])]
  ∧ promises native.1
    = [{| closeWithIPC := true; state := Fulfilled (VArray [VString "saved"]) |}].
Proof. vm_compute. by split_and!. Qed.

(** The main window closed by the user. *)
Example native_close_only :
  let m := (createBaseWindow empty example_options).1 in
  let native := emit (Electron.Window 1) Electron.closing m in
  log native.1 = log m ++ [Effect.onclose 7%nat [VNull]; Effect.resolve 0%nat VNull]
  ∧ promises native.1 = [{| closeWithIPC := false; state := Fulfilled VNull |}].
Proof. vm_compute. by split_and!. Qed.

(** The directory of the example holds a file cut short. *)
Example init_example_directory :
  Localization.initLocalization "/locales" None example_i18next
  = (example_i18next, Throw (SyntaxError "Unexpected end of JSON input")).
Proof. reflexivity. Qed.

Example logger_before_and_after_init :
  Loggers.get Loggers.loaded Loggers.main = Throw (Error "Loggers not initiailized")
  ∧ Loggers.category <$> Localization.fulfilment (Loggers.get (Loggers.init Loggers.loaded) Loggers.f95)
    = Some "f95".
Proof. by split. Qed.

Lemma unknown_channel_ignored_witness :
  ("window-close" ≠ "window-resize" ∧ "window-close" ≠ "window-size"
   ∧ "window-close" ≠ "window-center")
  ∧ windowIPCHandler [] None "window-close" [VArray [VString "saved"]]
    = ([], Normal (Returned ())).
Proof.
  split; [by split_and! |].
  apply (unknown_channel_ignored [] None "window-close" [VArray [VString "saved"]]);
    discriminate.
Defined.

Lemma get_unknown_name_throws_witness :
  WindowsList empty !! "ghost" = None
  ∧ get_body empty (VString "ghost")
    = Throw (TypeError "Cannot read properties of undefined (reading 'window')")
  ∧ get empty (VString "ghost") = Normal (Handled VUndefined)
  ∧ get empty (VString "ghost") ≠ Normal (Returned None).
Proof.
  split; [reflexivity |].
  exact (get_unknown_name_throws empty "ghost" eq_refl).
Defined.

Lemma close_without_payload_never_resolves_witness :
  reachable empty
  ∧ IWindowOptions.onclose example_options = Some 7%nat
  ∧ let m1 := (createBaseWindow empty example_options).1 in
    let ipc := emit (Electron.WebContents 1) (Electron.ipc_message "window-close" []) m1 in
    let native := emit (Electron.Window 1) Electron.closing ipc.1 in
    (createBaseWindow empty example_options).2 = Some 0%nat
    ∧ promises m1 !! 0%nat = Some {| closeWithIPC := false; state := Pending |}
    ∧ log native.1
      = log m1 ++ [Effect.onclose 7%nat []; Effect.close {| Electron.id := 1 |}]
    ∧ promises native.1 !! 0%nat = Some {| closeWithIPC := true; state := Pending |}.
Proof.
  split; [exact reachable_empty |]. split; [reflexivity |].
  exact (close_without_payload_never_resolves empty example_options 7%nat
           reachable_empty eq_refl).
Defined.

Lemma window_close_never_resolves_with_null_witness :
  reachable empty
  ∧ IWindowOptions.onclose example_options = Some 7%nat
  ∧ let m1 := (createBaseWindow empty example_options).1 in
    let ipc := emit (Electron.WebContents 1)
                 (Electron.ipc_message "window-close" [VArray []]) m1 in
    let bare := emit (Electron.WebContents 1) (Electron.ipc_message "window-close" []) m1 in
    (ipc.2 = None
     ∧ log ipc.1 = log m1 ++ [Effect.onclose 7%nat []; Effect.close {| Electron.id := 1 |};
                              Effect.resolve 0%nat (VArray [])]
     ∧ promises ipc.1 !! 0%nat
       = Some {| closeWithIPC := true; state := Fulfilled (VArray []) |})
    ∧ (bare.2 = Some (TypeError "value is not iterable")
       ∧ log bare.1 = log m1 ++ [Effect.onclose 7%nat []; Effect.close {| Electron.id := 1 |}]
       ∧ promises bare.1 !! 0%nat = Some {| closeWithIPC := true; state := Pending |}).
Proof.
  split; [exact reachable_empty |]. split; [reflexivity |].
  exact (window_close_never_resolves_with_null empty example_options 7%nat []
           reachable_empty eq_refl).
Defined.


(** The message the main window gets when its content asks for a size in
    big integers: [Math.max] throws, the error handler takes the error, and
    no size is applied. *)
Lemma window_resize_bigint_not_applied :
  windowIPCHandler [] (Some {| window := {| Electron.id := 1 |}; options := example_options |})
    "window-resize" [VBigInt 1280; VBigInt 720]
  = ([], Normal (Handled VUndefined))
  ∧ ∀ width height : value,
      Effect.setSize {| Electron.id := 1 |} width height
      ∉ (windowIPCHandler []
           (Some {| window := {| Electron.id := 1 |}; options := example_options |})
           "window-resize" [VBigInt 1280; VBigInt 720]).1.
Proof.
  split; [reflexivity |]. intros width height Hin. by apply elem_of_nil in Hin.
Qed.

(** The same window asked to resize without a payload: [NaN] by [NaN]. *)
Example resize_without_payload :
  windowIPCHandler [] (Some {| window := {| Electron.id := 1 |}; options := example_options |})
    "window-resize" []
  = ([Effect.setSize {| Electron.id := 1 |} (VNumber NaN) (VNumber NaN)],
     Normal (Returned ())).
Proof. reflexivity. Qed.

Lemma createBaseWindow_returns_promise_witness :
  reachable (createBaseWindow empty example_messagebox).1
  ∧ (createBaseWindow (createBaseWindow empty example_messagebox).1 example_options).2
    = Some 0%nat
  ∧ (∃ f, IWindowOptions.onclose example_options = Some f
          ∧ log (emit (Electron.Window 2) Electron.closing
                   (createBaseWindow (createBaseWindow empty example_messagebox).1
                      example_options).1).1
            = log (createBaseWindow (createBaseWindow empty example_messagebox).1
                     example_options).1
              ++ [Effect.onclose f [VNull]; Effect.resolve 0%nat VNull]
          ∧ promises (emit (Electron.Window 2) Electron.closing
                        (createBaseWindow (createBaseWindow empty example_messagebox).1
                           example_options).1).1 !! 0%nat
            = Some {| closeWithIPC := false; state := Fulfilled VNull |}
          ∧ log (emit (Electron.WebContents 2)
                   (Electron.ipc_message "window-close" [VArray [VString "saved"]])
                   (createBaseWindow (createBaseWindow empty example_messagebox).1
                      example_options).1).1
            = log (createBaseWindow (createBaseWindow empty example_messagebox).1
                     example_options).1
              ++ [Effect.onclose f [VString "saved"]; Effect.close {| Electron.id := 2 |};
                  Effect.resolve 0%nat (VArray [VString "saved"])]
          ∧ promises (emit (Electron.WebContents 2)
                        (Electron.ipc_message "window-close" [VArray [VString "saved"]])
                        (createBaseWindow (createBaseWindow empty example_messagebox).1
                           example_options).1).1 !! 0%nat
            = Some {| closeWithIPC := true; state := Fulfilled (VArray [VString "saved"]) |})
  ∧ reachable empty
  ∧ (createBaseWindow empty example_messagebox).2 = None
  ∧ promises (createBaseWindow empty example_messagebox).1 = promises empty
  ∧ emit (Electron.Window 1) Electron.closing (createBaseWindow empty example_messagebox).1
    = ((createBaseWindow empty example_messagebox).1, None)
  ∧ emit (Electron.WebContents 1) (Electron.ipc_message "window-close" [VArray []])
      (createBaseWindow empty example_messagebox).1
    = ((createBaseWindow empty example_messagebox).1, None).
Proof.
  assert (Hreach : reachable (createBaseWindow empty example_messagebox).1)
    by exact (reachable_createBaseWindow empty example_messagebox reachable_empty).
  assert (Hsome : (createBaseWindow (createBaseWindow empty example_messagebox).1
                     example_options).2 = Some 0%nat) by reflexivity.
  assert (Hnone : (createBaseWindow empty example_messagebox).2 = None) by reflexivity.
  destruct (createBaseWindow_returns_promise (createBaseWindow empty example_messagebox).1
              example_options) as (_ & _ & _ & Hedges).
  destruct (Hedges Hreach) as [Hpromise _].
  destruct (Hpromise 0%nat Hsome) as (f & Hf & _ & Hlog & Hcell & Hipc).
  destruct (Hipc [VString "saved"]) as (_ & Hlog' & Hcell').
  destruct (createBaseWindow_returns_promise empty example_messagebox)
    as (_ & _ & _ & Hedges').
  destruct (Hedges' reachable_empty) as [_ Hnull].
  destruct (Hnull Hnone) as (Hsame & Hnative & Hignored).
  split_and!; [exact Hreach | exact Hsome | | exact reachable_empty | exact Hnone
              | exact Hsame | exact Hnative | exact (Hignored [VArray []])].
  exists f. split_and!; [exact Hf | exact Hlog | exact Hcell | exact Hlog' | exact Hcell'].
Defined.

End Examples.

(** ** More theorems at work *)

Section MoreExamples.

#[local] Existing Instance example_engine.
#[local] Existing Instance example_shared.
#[local] Existing Instance example_node_en.
#[local] Existing Instance example_LogPath.
#[local] Existing Instance example_text.

Import WindowManager.

Lemma get_registered_by_id_witness :
  WindowsList (createBaseWindow empty example_options).1 !! "main"
  = Some {| window := {| Electron.id := 1 |}; options := example_options |}
  ∧ get (createBaseWindow empty example_options).1 (VNumber (Num 1))
    = Normal (Returned (Some {| Electron.id := 1 |})).
Proof.
  assert (Hmain : WindowsList (createBaseWindow empty example_options).1 !! "main"
                  = Some {| window := {| Electron.id := 1 |}; options := example_options |})
    by reflexivity.
  split; [exact Hmain |].
  exact (get_registered_by_id (createBaseWindow empty example_options).1 "main" _ Hmain).
Defined.

Lemma getName_registered_witness :
  reachable (createBaseWindow empty example_options).1
  ∧ WindowsList (createBaseWindow empty example_options).1 !! "main"
    = Some {| window := {| Electron.id := 1 |}; options := example_options |}
  ∧ getName (createBaseWindow empty example_options).1 {| Electron.id := 1 |}
    = Normal (Returned (Some "main")).
Proof.
  assert (Hreach : reachable (createBaseWindow empty example_options).1)
    by exact (reachable_createBaseWindow empty example_options reachable_empty).
  assert (Hmain : WindowsList (createBaseWindow empty example_options).1 !! "main"
                  = Some {| window := {| Electron.id := 1 |}; options := example_options |})
    by reflexivity.
  split; [exact Hreach |]. split; [exact Hmain |].
  exact (getName_registered (createBaseWindow empty example_options).1 "main" _ Hreach Hmain).
Defined.

Lemma getName_unknown_witness :
  WindowsList (createBaseWindow (createBaseWindow empty example_options).1
                 example_messagebox).1 !! "messagebox"
  = Some {| window := {| Electron.id := 2 |}; options := example_messagebox |}
  ∧ (∀ name wd,
       WindowsList (createBaseWindow (createBaseWindow empty example_options).1
                      example_messagebox).1 !! name = Some wd →
       Electron.id (window wd) ≠ Electron.id {| Electron.id := 9 |})
  ∧ getName (createBaseWindow (createBaseWindow empty example_options).1
               example_messagebox).1 {| Electron.id := 9 |}
    = Normal (Returned None).
Proof.
  assert (Hbox : WindowsList (createBaseWindow (createBaseWindow empty example_options).1
                                example_messagebox).1 !! "messagebox"
                 = Some {| window := {| Electron.id := 2 |}; options := example_messagebox |})
    by reflexivity.
  assert (Hnone : ∀ name wd,
            WindowsList (createBaseWindow (createBaseWindow empty example_options).1
                           example_messagebox).1 !! name = Some wd →
            Electron.id (window wd) ≠ Electron.id {| Electron.id := 9 |}).
  { intros name wd. rewrite !createBaseWindow_unfold. cbn [fst WindowsList nextId empty].
    rewrite !lookup_insert. repeat case_decide; [| | by rewrite lookup_empty];
      intros [= <-]; cbn; lia. }
  split; [exact Hbox |]. split; [exact Hnone |].
  exact (getName_unknown _ {| Electron.id := 9 |} Hnone).
Defined.

Lemma events_keep_promise_witness :
  promises (emit (Electron.WebContents 1)
              (Electron.ipc_message "window-close" [VArray [VString "saved"]])
              (createBaseWindow empty example_options).1).1 !! 0%nat
  = Some {| closeWithIPC := true; state := Fulfilled (VArray [VString "saved"]) |}
  ∧ ∃ c',
      promises
        (handle (emit (Electron.WebContents 1)
                   (Electron.ipc_message "window-close" [VArray [VString "saved"]])
                   (createBaseWindow empty example_options).1).1
           [(Electron.Window 1, Electron.closing);
            (Electron.WebContents 1, Electron.ipc_message "window-close" [VArray []])])
      !! 0%nat = Some c'
      ∧ (true = true → closeWithIPC c' = true)
      ∧ (∀ v, Fulfilled (VArray [VString "saved"]) = Fulfilled v → state c' = Fulfilled v).
Proof.
  assert (Hp : promises (emit (Electron.WebContents 1)
                 (Electron.ipc_message "window-close" [VArray [VString "saved"]])
                 (createBaseWindow empty example_options).1).1 !! 0%nat
               = Some {| closeWithIPC := true; state := Fulfilled (VArray [VString "saved"]) |})
    by reflexivity.
  split; [exact Hp |].
  exact (events_keep_promise _ _ 0%nat _ Hp).
Defined.

Lemma close_promises_are_separate_witness :
  reachable (createBaseWindow empty example_options).1
  ∧ IWindowOptions.onclose example_login = Some 8%nat
  ∧ Forall (λ ev, emitter_id ev.1 ≠ 2)
      [(Electron.WebContents 1, Electron.ipc_message "window-close" [VArray [VString "saved"]]);
       (Electron.Window 1, Electron.closing)]
  ∧ promises (handle (createBaseWindow (createBaseWindow empty example_options).1
                        example_login).1
                [(Electron.WebContents 1,
                  Electron.ipc_message "window-close" [VArray [VString "saved"]]);
                 (Electron.Window 1, Electron.closing)])
    = [{| closeWithIPC := true; state := Fulfilled (VArray [VString "saved"]) |};
       {| closeWithIPC := false; state := Pending |}]
  ∧ promises (handle (createBaseWindow (createBaseWindow empty example_options).1
                        example_login).1
                [(Electron.WebContents 1,
                  Electron.ipc_message "window-close" [VArray [VString "saved"]]);
                 (Electron.Window 1, Electron.closing)]) !! 1%nat
    = Some {| closeWithIPC := false; state := Pending |}
  ∧ Forall (λ ev, emitter_id ev.1 = 2)
      [(Electron.WebContents 2, Electron.dom_ready); (Electron.Window 2, Electron.closing)]
  ∧ promises (createBaseWindow empty example_options).1 !! 0%nat
    = Some {| closeWithIPC := false; state := Pending |}
  ∧ promises (handle (createBaseWindow (createBaseWindow empty example_options).1
                        example_login).1
                [(Electron.WebContents 2, Electron.dom_ready);
                 (Electron.Window 2, Electron.closing)])
    = [{| closeWithIPC := false; state := Pending |};
       {| closeWithIPC := false; state := Fulfilled VNull |}]
  ∧ promises (handle (createBaseWindow (createBaseWindow empty example_options).1
                        example_login).1
                [(Electron.WebContents 2, Electron.dom_ready);
                 (Electron.Window 2, Electron.closing)]) !! 0%nat
    = Some {| closeWithIPC := false; state := Pending |}.
Proof.
  assert (Hreach : reachable (createBaseWindow empty example_options).1)
    by exact (reachable_createBaseWindow empty example_options reachable_empty).
  assert (Hclose : IWindowOptions.onclose example_login = Some 8%nat) by reflexivity.
  assert (Hothers : Forall (λ ev : Electron.Emitter * Electron.Event, emitter_id ev.1 ≠ 2)
            [(Electron.WebContents 1,
              Electron.ipc_message "window-close" [VArray [VString "saved"]]);
             (Electron.Window 1, Electron.closing)])
    by (repeat constructor; cbn; lia).
  assert (Hown : Forall (λ ev : Electron.Emitter * Electron.Event, emitter_id ev.1 = 2)
            [(Electron.WebContents 2, Electron.dom_ready);
             (Electron.Window 2, Electron.closing)])
    by (repeat constructor).
  assert (Hmain : promises (createBaseWindow empty example_options).1 !! 0%nat
                  = Some {| closeWithIPC := false; state := Pending |}) by reflexivity.
  split_and!; [exact Hreach | exact Hclose | exact Hothers | reflexivity | | exact Hown
              | exact Hmain | reflexivity |].
  - exact (proj1 (close_promises_are_separate (createBaseWindow empty example_options).1
                    example_login 8%nat _ Hreach Hclose) Hothers).
  - exact (proj2 (close_promises_are_separate (createBaseWindow empty example_options).1
                    example_login 8%nat _ Hreach Hclose) Hown 0%nat _ Hmain).
Defined.

Lemma window_arguments_sent_once_witness :
  reachable empty
  ∧ let m1 := (createBaseWindow empty example_messagebox).1 in
    let first := emit (Electron.WebContents 1) Electron.dom_ready m1 in
    let second := emit (Electron.WebContents 1) Electron.dom_ready first.1 in
    first.2 = None
    ∧ log first.1
      = log m1 ++ [Effect.send {| Electron.id := 1 |} "window-arguments"
                     (VObject [("type", VString "info")])]
    ∧ second = (first.1, None).
Proof.
  split; [exact reachable_empty |].
  exact (window_arguments_sent_once empty example_messagebox reachable_empty).
Defined.

Lemma windows_are_hardened_witness :
  reachable (createBaseWindow empty example_options).1
  ∧ Effect.new_BrowserWindow {| Electron.id := 1 |} (constructor_options example_options)
    ∈ log (createBaseWindow empty example_options).1
  ∧ hardened (constructor_options example_options).
Proof.
  assert (Hreach : reachable (createBaseWindow empty example_options).1)
    by exact (reachable_createBaseWindow empty example_options reachable_empty).
  assert (Hin : Effect.new_BrowserWindow {| Electron.id := 1 |}
                  (constructor_options example_options)
                ∈ log (createBaseWindow empty example_options).1) by left.
  split; [exact Hreach |]. split; [exact Hin |].
  exact (windows_are_hardened _ _ _ Hreach Hin).
Defined.

Lemma unreadable_directory_aborts_init_witness :
  Localization.readdir "/nowhere" = Throw (SystemError "ENOENT")
  ∧ Localization.getTranslationResourcesFromDir "/nowhere" = Throw (SystemError "ENOENT")
  ∧ Localization.initLocalization "/nowhere" None example_i18next
    = (example_i18next, Throw (SystemError "ENOENT")).
Proof.
  assert (Hdir : Localization.readdir "/nowhere" = Throw (SystemError "ENOENT"))
    by reflexivity.
  split; [exact Hdir |].
  exact (unreadable_directory_aborts_init "/nowhere" None example_i18next _ Hdir).
Defined.

Lemma init_loads_every_resource_witness :
  Localization.readdir "/locales" = Normal example_dirents_en
  ∧ (∀ d, d ∈ example_dirents_en → resource_file d →
          ∃ text, Localization.readFile ("/locales" +:+ "/" +:+ Localization.name d)
                  = Normal text
                  ∧ Localization.JSON_parse text = Normal (VObject []))
  ∧ ∃ (res : gmap string value) (i' : Localization.i18next),
      Localization.initLocalization "/locales" (Some "it") example_i18next = (i', Normal ())
      ∧ Localization.language i' = Some "it"
      ∧ is_Some (res !! "en").
Proof.
  assert (Hdir : Localization.readdir "/locales" = Normal example_dirents_en) by reflexivity.
  assert (Hfiles : ∀ d, d ∈ example_dirents_en → resource_file d →
            ∃ text, Localization.readFile ("/locales" +:+ "/" +:+ Localization.name d)
                    = Normal text
                    ∧ Localization.JSON_parse text = Normal (VObject [])).
  { intros d Hd Hfile.
    repeat (apply elem_of_cons in Hd as [->|Hd]);
      [by exists "{}" | done | by apply elem_of_nil in Hd]. }
  split; [exact Hdir |]. split; [exact Hfiles |].
  destruct (init_loads_every_resource "/locales" (Some "it") example_i18next
              example_dirents_en (λ _, VObject []) Hdir Hfiles)
    as (res & i' & Hinit & _ & Hlang & Hsome & _).
  exists res, i'. split_and!; [exact Hinit | by apply Hlang |].
  apply (Hsome {| Localization.name := "en.json"; Localization.isFile := true |});
    [by left | done].
Defined.

Lemma configured_logger_witness :
  Loggers.call_init ∈ [Loggers.call_init; Loggers.call_get Loggers.main]
  ∧ ∃ logger,
      Loggers.get (Loggers.run [Loggers.call_init; Loggers.call_get Loggers.main])
        Loggers.renderer = Normal logger
      ∧ Loggers.category logger = "renderer".
Proof.
  assert (Hin : Loggers.call_init ∈ [Loggers.call_init; Loggers.call_get Loggers.main])
    by left.
  split; [exact Hin |].
  destruct (configured_logger [Loggers.call_init; Loggers.call_get Loggers.main]
              Loggers.renderer Hin) as (logger & cfg & Hget & Hcat & _).
  by exists logger.
Defined.


Lemma buttons_area_one_row_witness :
  Forall (λ b, 0 ≤ Messagebox.scrollWidth b) (Messagebox.buttons example_page)
  ∧ total_width (Messagebox.buttons example_page) ≤ 630
  ∧ Messagebox.getButtonsAreaSize example_page
    = {| Messagebox.Area.height := 36; Messagebox.Area.width := 0 |}.
Proof.
  assert (Hwidths : Forall (λ b, 0 ≤ Messagebox.scrollWidth b)
                      (Messagebox.buttons example_page))
    by (repeat constructor; cbn; lia).
  assert (Hfit : total_width (Messagebox.buttons example_page) ≤ 630)
    by (cbn; lia).
  split; [exact Hwidths |]. split; [exact Hfit |].
  exact (buttons_area_one_row example_page Hwidths Hfit).
Defined.

(** The login window of the example has the arguments [0]: its
    [dom-ready] sends nothing. *)
Example falsy_arguments_not_sent :
  emit (Electron.WebContents 1) Electron.dom_ready (createBaseWindow empty example_login).1
  = (set_listeners (remove_once (Electron.WebContents 1) Electron.dom_ready)
       (createBaseWindow empty example_login).1, None)
  ∧ log (emit (Electron.WebContents 1) Electron.dom_ready
           (createBaseWindow empty example_login).1).1
    = log (createBaseWindow empty example_login).1.
Proof. by split. Qed.

(** The message box of the example asks for 450 x 239. *)
Example fitContent_example_page :
  Messagebox.fitContent example_page
  = ("window-resize", [VNumber (Num 450); VNumber (Num 239)]).
Proof. reflexivity. Qed.

(** A window registered under the empty name has no name for [getName]. *)
Example getName_of_empty_name :
  let nameless :=
    {| IWindowOptions.name := ""; IWindowOptions.size := {| Size.width := 1; Size.height := 1 |};
       IWindowOptions.minSize := None; IWindowOptions.maxSize := None;
       IWindowOptions.hasFrame := None; IWindowOptions.parent := None;
       IWindowOptions.args := None; IWindowOptions.onclose := None |} in
  let m := (createBaseWindow empty nameless).1 in
  get m (VString "") = Normal (Returned (Some {| Electron.id := 1 |}))
  ∧ getName m {| Electron.id := 1 |} = Normal (Returned None).
Proof. vm_compute. by split. Qed.

End MoreExamples.

(** ** A directory with a file that may not be read *)

Section LockedDirectory.

#[local] Existing Instance example_shared.
#[local] Existing Instance example_node_locked.


End LockedDirectory.
